(** * The sign-up form: schema validation and submission handler

    A shallow embedding of the two files that carry logic:
    - the types module, which declares [FormData], [ValidFieldNames] and the
      Zod schema [UserSchema];
    - the [Form] component, whose [onSubmit] handler posts the record and maps
      a server-reported error back onto one form field.

    JavaScript values are an inductive type, numbers are rationals extended
    with the three special values of a double, strings are [string] (one
    [ascii] per UTF-16 code unit, so the embedding covers strings whose code
    units are below 256), exceptions are a result type, and the form state
    that [setError] and [alert] write to is threaded explicitly. *)

From Stdlib Require Import QArith Ascii String.
From stdpp Require Import gmap strings list pretty.

Set Warnings "-register-all".

Local Open Scope string_scope.
Local Open Scope list_scope.

(** ** JavaScript values *)

Module Js.

(** A JavaScript number: every finite double is a rational. *)
Inductive JsNumber :=
  | NaN
  | NegInf
  | PosInf
  | Finite (q : Q).

(** The values a JSON body or a form record is made of, plus [undefined]. An
    object is its property list; the first binding of a key is the property. *)
Inductive JsValue :=
  | JsUndefined
  | JsNull
  | JsBool (b : bool)
  | JsNum (n : JsNumber)
  | JsStr (s : string)
  | JsArr (items : list JsValue)
  | JsObj (props : list (string * JsValue)).

(** [x < y] on numbers: false as soon as one side is [NaN]. *)
Definition lt (x y : JsNumber) : bool :=
  match x, y with
  | NaN, _ | _, NaN => false
  | _, NegInf => false
  | NegInf, _ => true
  | PosInf, _ => false
  | Finite _, PosInf => true
  | Finite a, Finite b => negb (Qle_bool b a)
  end.

(** [x > y] is [y < x]. *)
Definition gt (x y : JsNumber) : bool := lt y x.

Definition of_Z (z : Z) : JsNumber := Finite (inject_Z z).

(** [ToBoolean]. *)
Definition truthy (v : JsValue) : bool :=
  match v with
  | JsUndefined | JsNull => false
  | JsBool b => b
  | JsNum NaN => false
  | JsNum (Finite q) => negb (Qeq_bool q 0)
  | JsNum _ => true
  | JsStr s => negb (String.eqb s "")
  | JsArr _ | JsObj _ => true
  end.

(** Own property of an object literal. *)
Fixpoint own (props : list (string * JsValue)) (key : string) : option JsValue :=
  match props with
  | [] => None
  | (k, v) :: rest => if String.eqb k key then Some v else own rest key
  end.

(** Abrupt and normal completion of an expression. *)
Inductive Completion (A : Type) :=
  | Normal (a : A)
  | Throw (error : string).
Arguments Normal {A} a.
Arguments Throw {A} error.

#[global] Instance Completion_bind : MBind Completion := λ A B k c,
  match c with
  | Normal a => k a
  | Throw e => Throw e
  end.

(** [v[key]], for a key that no built-in prototype defines (the handler reads
    only ["errors"] and the five field names): reading from [undefined] or
    [null] throws a TypeError, an object yields its own property or
    [undefined], and every other value yields [undefined]. *)
Definition get (v : JsValue) (key : string) : Completion JsValue :=
  match v with
  | JsUndefined | JsNull => Throw "TypeError"
  | JsObj props => Normal (default JsUndefined (own props key))
  | _ => Normal JsUndefined
  end.

(** [Array.prototype.find] with a callback that may throw: the callback runs
    on the elements in order until it answers true. *)
Fixpoint find (callback : string → Completion bool) (l : list string)
  : Completion (option string) :=
  match l with
  | [] => Normal None
  | x :: rest =>
      b ← callback x;
      if b : bool then Normal (Some x) else find callback rest
  end.

(** [Object.keys] of an object literal with string keys: insertion order. *)
Definition Object_keys {A} (o : list (string * A)) : list string := o.*1.

End Js.

Import Js.

(** ** The form component *)

Module Form.

(** The names of the five fields. *)
Inductive ValidFieldNames :=
  | F_email
  | F_githubUrl
  | F_yearsOfExperience
  | F_password
  | F_confirmPassword.

Definition field_index (f : ValidFieldNames) : nat :=
  match f with
  | F_email => 0
  | F_githubUrl => 1
  | F_yearsOfExperience => 2
  | F_password => 3
  | F_confirmPassword => 4
  end.

Definition field_of_index (n : nat) : option ValidFieldNames :=
  match n with
  | 0 => Some F_email
  | 1 => Some F_githubUrl
  | 2 => Some F_yearsOfExperience
  | 3 => Some F_password
  | 4 => Some F_confirmPassword
  | _ => None
  end.

#[global] Instance ValidFieldNames_eq_dec : EqDecision ValidFieldNames.
Proof. solve_decision. Defined.

#[global] Instance ValidFieldNames_countable : Countable ValidFieldNames.
Proof.
  apply (inj_countable field_index field_of_index).
  by intros [].
Defined.

(** What [setError] stores for a field. *)
Record FieldError := { type : string; message : JsValue }.

(** The state the handler writes to: the form's [errors] and the alerts shown
    so far, oldest first. *)
Record FormState := {
  errors : gmap ValidFieldNames FieldError;
  alerts : list string
}.

Definition setError (name : ValidFieldNames) (error : FieldError) (st : FormState)
  : FormState :=
  {| errors := <[name := error]> (errors st); alerts := alerts st |}.

Definition alert (text : string) (st : FormState) : FormState :=
  {| errors := errors st; alerts := alerts st ++ [text] |}.

(** The promise [axios.post] returns: rejected, or resolved with a response
    whose [data] is the parsed body. *)
Inductive AxiosResult :=
  | Rejected
  | Resolved (data : JsValue).

Definition fieldErrorMapping : list (string * ValidFieldNames) :=
  [ ("email", F_email);
    ("githubUrl", F_githubUrl);
    ("yearsOfExperience", F_yearsOfExperience);
    ("password", F_password);
    ("confirmPassword", F_confirmPassword) ].

Fixpoint mapping_get (m : list (string * ValidFieldNames)) (key : string)
  : option ValidFieldNames :=
  match m with
  | [] => None
  | (k, f) :: rest => if String.eqb k key then Some f else mapping_get rest key
  end.

(** [const { errors = {} } = response.data]: the default applies to
    [undefined] only. *)
Definition destructure_errors (data : JsValue) : Completion JsValue :=
  e ← get data "errors";
  Normal (match e with JsUndefined => JsObj [] | _ => e end).

(** The body of the [try] block, after the request has resolved. *)
Definition onSubmit_try (data : JsValue) (st : FormState) : Completion FormState :=
  errs ← destructure_errors data;
  fieldWithError ←
    find (fun field => v ← get errs field; Normal (truthy v))
         (Object_keys fieldErrorMapping);
  match fieldWithError with
  | Some field =>
      if truthy (JsStr field) then
        msg ← get errs field;
        match mapping_get fieldErrorMapping field with
        | Some name => Normal (setError name {| type := "server"; message := msg |} st)
        | None => Normal st
        end
      else Normal st
  | None => Normal st
  end.

(** [onSubmit]: whatever is thrown inside [try], by the request or after it,
    ends in the [catch] block. *)
Definition onSubmit (result : AxiosResult) (st : FormState) : FormState :=
  match result with
  | Rejected => alert "Submitting form failed!" st
  | Resolved data =>
      match onSubmit_try data st with
      | Normal st' => st'
      | Throw _ => alert "Submitting form failed!" st
      end
  end.

End Form.

(** ** Regular expressions

    Matching by derivatives, over code units. The schema's [email()] check
    tests the string against Zod's email pattern, which is built from these
    constructors. *)

Module RegExp.

Inductive regex :=
  | Void
  | Eps
  | Chr (c : ascii)
  | Class (p : ascii → bool)
  | Seq (r1 r2 : regex)
  | Alt (r1 r2 : regex)
  | Star (r : regex).

Fixpoint nullable (r : regex) : bool :=
  match r with
  | Void | Chr _ | Class _ => false
  | Eps | Star _ => true
  | Seq r1 r2 => nullable r1 && nullable r2
  | Alt r1 r2 => nullable r1 || nullable r2
  end.

Fixpoint deriv (a : ascii) (r : regex) : regex :=
  match r with
  | Void | Eps => Void
  | Chr c => if Ascii.eqb c a then Eps else Void
  | Class p => if p a then Eps else Void
  | Seq r1 r2 =>
      Alt (Seq (deriv a r1) r2) (if nullable r1 then deriv a r2 else Void)
  | Alt r1 r2 => Alt (deriv a r1) (deriv a r2)
  | Star r1 => Seq (deriv a r1) (Star r1)
  end.

(** Does [r] match the whole of [s]? *)
Fixpoint matches (r : regex) (s : string) : bool :=
  match s with
  | EmptyString => nullable r
  | String a rest => matches (deriv a r) rest
  end.

(** [r+] and [r{2,}]. *)
Definition Plus (r : regex) : regex := Seq r (Star r).
Definition AtLeast2 (r : regex) : regex := Seq r (Seq r (Star r)).

(** [[^]]: any code unit. *)
Definition Any : regex := Class (λ _, true).

(** Does [r] match at the start of [s]? This is what a lookahead placed
    right after [^] asks. *)
Definition matches_prefix (r : regex) (s : string) : bool :=
  matches (Seq r (Star Any)) s.

Definition in_range (lo hi c : ascii) : bool :=
  (nat_of_ascii lo <=? nat_of_ascii c)%nat && (nat_of_ascii c <=? nat_of_ascii hi)%nat.

(** [Canonicalize] under the [i] flag: upper case. Below 256 only the
    letters a-z reach a code unit below 128. *)
Definition canonicalize (c : ascii) : ascii :=
  if in_range "a"%char "z"%char c then ascii_of_nat (nat_of_ascii c - 32) else c.

(** A character class of canonical code units, under the [i] flag. *)
Definition ClassI (p : ascii → bool) : regex := Class (λ c, p (canonicalize c)).

(** [.]: any code unit but a line terminator. *)
Definition Dot : regex :=
  Class (λ c, negb (Ascii.eqb c "010"%char || Ascii.eqb c "013"%char)).

End RegExp.

(** ** The platform *)

(** [new URL(s)] either returns or throws; Zod's [url()] check asks only
    which. The parser belongs to the platform, so the schema is stated over
    any such function. *)
Class Platform := { URL_parses : string → bool }.

(** ** Zod

    The schema language as far as [UserSchema] uses it, with the parsing
    rules of Zod 3, the line whose [required_error] and
    [invalid_type_error] parameters the schema passes: a value of the wrong
    type aborts its schema; a failed check adds an issue and leaves the
    result dirty; an object is aborted when one of its keys is, dirty when
    one of its keys is dirty, and all its keys are parsed either way. *)

Module Zod.

Import RegExp.

Inductive ZodIssueCode :=
  | invalid_type
  | invalid_string
  | too_small
  | too_big
  | custom.

Record ZodIssue := {
  code : ZodIssueCode;
  path : list string;
  message : string
}.

Inductive ZodParsedType :=
  | T_undefined | T_null | T_boolean | T_nan | T_number | T_string | T_array | T_object.

Definition getParsedType (v : JsValue) : ZodParsedType :=
  match v with
  | JsUndefined => T_undefined
  | JsNull => T_null
  | JsBool _ => T_boolean
  | JsNum NaN => T_nan
  | JsNum _ => T_number
  | JsStr _ => T_string
  | JsArr _ => T_array
  | JsObj _ => T_object
  end.

Definition type_name (t : ZodParsedType) : string :=
  match t with
  | T_undefined => "undefined"
  | T_null => "null"
  | T_boolean => "boolean"
  | T_nan => "nan"
  | T_number => "number"
  | T_string => "string"
  | T_array => "array"
  | T_object => "object"
  end.

(** The result of [_parse]: status valid, dirty or aborted. A dirty result
    still carries the value; an aborted one does not. *)
Inductive ParseReturnType (A : Type) :=
  | OK (value : A)
  | DIRTY (value : A)
  | INVALID.
Arguments OK {A} value.
Arguments DIRTY {A} value.
Arguments INVALID {A}.

(** A schema: from the path and the data to the result and the issues added
    to the context, in the order they are added. *)
Definition ZodType (A : Type) : Type :=
  list string → JsValue → ParseReturnType A * list ZodIssue.

(** The messages of the default (English) error map. *)
Definition invalid_type_default (expected received : ZodParsedType) : string :=
  match received with
  | T_undefined => "Required"
  | _ => "Expected " +:+ type_name expected +:+ ", received " +:+ type_name received
  end.

(** The [required_error] and [invalid_type_error] of a schema's creation
    parameters: the first answers a missing value, the second any other
    value of the wrong type. *)
Record RawCreateParams := {
  required_error : option string;
  invalid_type_error : option string
}.

Definition no_params : RawCreateParams :=
  {| required_error := None; invalid_type_error := None |}.

Definition invalid_type_issue (params : RawCreateParams) (expected : ZodParsedType)
    (p : list string) (v : JsValue) : ZodIssue :=
  let fallback := invalid_type_default expected (getParsedType v) in
  {| code := invalid_type;
     path := p;
     message :=
       match v with
       | JsUndefined => default fallback (required_error params)
       | _ => default fallback (invalid_type_error params)
       end |}.

(** Status after running checks: dirty as soon as one added an issue. *)
Definition after_checks {A} (value : A) (issues : list ZodIssue)
  : ParseReturnType A * list ZodIssue :=
  match issues with
  | [] => (OK value, [])
  | _ => (DIRTY value, issues)
  end.

(** The email pattern of Zod 3.22, with the [i] flag: after [^], the
    lookaheads [(?!\.)] and [(?!.*\.\.)], then any number of [[A-Z0-9_+-\.]],
    one [[A-Z0-9_+-]], an [@], one or more labels (one [[A-Z0-9]], any number
    of [[A-Z0-9\-]], a dot), two or more [[A-Z]], and [$]. Inside the first
    class, [+-\.] is the range from [+] to [.]. *)
Definition letter (c : ascii) : bool := in_range "A" "Z" c.
Definition alnum (c : ascii) : bool := letter c || in_range "0" "9" c.
Definition alnum_dash (c : ascii) : bool := alnum c || Ascii.eqb c "-".
Definition local_char (c : ascii) : bool :=
  alnum c || Ascii.eqb c "_" || in_range "+" "." c.
Definition local_last (c : ascii) : bool :=
  alnum c || Ascii.eqb c "_" || Ascii.eqb c "+" || Ascii.eqb c "-".

Definition emailRegex_body : regex :=
  Seq (Star (ClassI local_char))
    (Seq (ClassI local_last)
      (Seq (Chr "@")
        (Seq (Plus (Seq (ClassI alnum) (Seq (Star (ClassI alnum_dash)) (Chr "."))))
          (AtLeast2 (ClassI letter))))).

(** [emailRegex.test(s)]: the two negative lookaheads, then the body
    between [^] and [$]. *)
Definition emailRegex_test (s : string) : bool :=
  negb (matches_prefix (Chr ".") s)
  && negb (matches_prefix (Seq (Star Dot) (Seq (Chr ".") (Chr "."))) s)
  && matches emailRegex_body s.

Definition quote : string := String (ascii_of_nat 34) EmptyString.

(** [s.includes(sub)]. *)
Fixpoint includes (s sub : string) : bool :=
  String.prefix sub s
  || match s with
     | EmptyString => false
     | String _ rest => includes rest sub
     end.

(** The checks a string schema can carry, each with its optional message. *)
Inductive ZodStringCheck :=
  | min (value : nat) (msg : option string)
  | max (value : nat) (msg : option string)
  | email (msg : option string)
  | url (msg : option string)
  | includes_check (value : string) (msg : option string).

(** The checks of a number schema; both bounds are inclusive. *)
Inductive ZodNumberCheck :=
  | num_min (value : Z) (msg : option string)
  | num_max (value : Z) (msg : option string).

Section Schemas.

Context `{Platform}.

(** One string check: the issue it adds, if any. *)
Definition run_string_check (p : list string) (s : string) (check : ZodStringCheck)
  : list ZodIssue :=
  match check with
  | min value msg =>
      if (String.length s <? value)%nat then
        [ {| code := too_small; path := p;
             message := default ("String must contain at least " +:+ pretty value
                                 +:+ " character(s)") msg |} ]
      else []
  | max value msg =>
      if (value <? String.length s)%nat then
        [ {| code := too_big; path := p;
             message := default ("String must contain at most " +:+ pretty value
                                 +:+ " character(s)") msg |} ]
      else []
  | email msg =>
      if emailRegex_test s then []
      else [ {| code := invalid_string; path := p;
                message := default "Invalid email" msg |} ]
  | url msg =>
      if URL_parses s then []
      else [ {| code := invalid_string; path := p;
                message := default "Invalid url" msg |} ]
  | includes_check value msg =>
      if includes s value then []
      else [ {| code := invalid_string; path := p;
                message := default ("Invalid input: must include " +:+ quote +:+ value
                                         +:+ quote) msg |} ]
  end.

(** [z.string()] with its checks. A value of another type aborts; a failed
    check adds its issue, marks the result dirty, and the next check runs. *)
Definition z_string (checks : list ZodStringCheck) : ZodType string := λ p v,
  match v with
  | JsStr s => after_checks s (flat_map (run_string_check p s) checks)
  | _ => (INVALID, [invalid_type_issue no_params T_string p v])
  end.

Definition run_number_check (p : list string) (n : JsNumber) (check : ZodNumberCheck)
  : list ZodIssue :=
  match check with
  | num_min value msg =>
      if lt n (of_Z value) then
        [ {| code := too_small; path := p;
             message := default ("Number must be greater than or equal to "
                                 +:+ pretty value) msg |} ]
      else []
  | num_max value msg =>
      if gt n (of_Z value) then
        [ {| code := too_big; path := p;
             message := default ("Number must be less than or equal to "
                                 +:+ pretty value) msg |} ]
      else []
  end.

(** [z.number(params)] with its checks. [NaN] has parsed type [nan], not
    [number]. *)
Definition z_number (params : RawCreateParams) (checks : list ZodNumberCheck)
  : ZodType JsNumber := λ p v,
  match v with
  | JsNum n =>
      match n with
      | NaN => (INVALID, [invalid_type_issue params T_number p v])
      | _ => after_checks n (flat_map (run_number_check p n) checks)
      end
  | _ => (INVALID, [invalid_type_issue params T_number p v])
  end.

(** The shape of an object schema, built key by key; every key's schema
    runs, on the property or on [undefined] when it is missing. *)
Definition ZodRawShape (A : Type) : Type :=
  list string → list (string * JsValue) → ParseReturnType A * list ZodIssue.

Definition shape_start {A} (make : A) : ZodRawShape A := λ _ _, (OK make, []).

(** Merging one more key into the object: aborted if either side is,
    dirty if either side is. *)
Definition merge {A B} (f : ParseReturnType (A → B)) (x : ParseReturnType A)
  : ParseReturnType B :=
  match f, x with
  | INVALID, _ | _, INVALID => INVALID
  | OK g, OK a => OK (g a)
  | OK g, DIRTY a | DIRTY g, OK a | DIRTY g, DIRTY a => DIRTY (g a)
  end.

Definition shape_key {A B} (shape : ZodRawShape (A → B)) (key : string)
    (schema : ZodType A) : ZodRawShape B := λ p props,
  let '(f, issues1) := shape p props in
  let '(x, issues2) := schema (p ++ [key]) (default JsUndefined (own props key)) in
  (merge f x, issues1 ++ issues2).

(** [z.object(shape)]. *)
Definition z_object {A} (shape : ZodRawShape A) : ZodType A := λ p v,
  match v with
  | JsObj props => shape p props
  | _ => (INVALID, [invalid_type_issue no_params T_object p v])
  end.

(** [schema.refine(check, { message, path })]: the check is skipped when the
    inner result is aborted and runs when it is valid or dirty. *)
Definition refine {A} (schema : ZodType A) (check : A → bool) (msg : string)
    (subpath : list string) : ZodType A := λ p v,
  let '(inner, issues) := schema p v in
  let issue := {| code := custom; path := p ++ subpath; message := msg |} in
  match inner with
  | INVALID => (INVALID, issues)
  | OK a => if check a then (OK a, issues) else (DIRTY a, issues ++ [issue])
  | DIRTY a => if check a then (DIRTY a, issues) else (DIRTY a, issues ++ [issue])
  end.

(** [safeParse]: success only on a valid result. *)
Definition safeParse {A} (schema : ZodType A) (v : JsValue) : A + list ZodIssue :=
  match schema [] v with
  | (OK a, _) => inl a
  | (_, issues) => inr issues
  end.

End Schemas.

End Zod.

(** ** The types module *)

Module Types.

Import Zod.

Record FormData := {
  email : string;
  githubUrl : string;
  yearsOfExperience : JsNumber;
  password : string;
  confirmPassword : string
}.

Section UserSchema.

Context `{Platform}.

Definition email_schema : ZodType string := z_string [Zod.email None].

Definition githubUrl_schema : ZodType string :=
  z_string [url None; includes_check "github.com" (Some "Invalid GitHub URL")].

Definition yearsOfExperience_schema : ZodType JsNumber :=
  z_number {| required_error := Some "required field";
              invalid_type_error := Some "Years of Experience is required" |}
           [num_min 1 None; num_max 10 None].

Definition password_schema : ZodType string :=
  z_string [min 8 (Some "Password is too short"); max 20 (Some "Password is too long")].

Definition confirmPassword_schema : ZodType string := z_string [].

Definition UserSchema_object : ZodType FormData :=
  z_object
    (shape_key (shape_key (shape_key (shape_key (shape_key
       (shape_start Build_FormData)
       "email" email_schema)
       "githubUrl" githubUrl_schema)
       "yearsOfExperience" yearsOfExperience_schema)
       "password" password_schema)
       "confirmPassword" confirmPassword_schema).

Definition UserSchema : ZodType FormData :=
  refine UserSchema_object
    (λ data, String.eqb (password data) (confirmPassword data))
    "Passwords do not match"
    ["confirmPassword"].

End UserSchema.

(** A stand-in for the platform's URL parser, for evaluating the schema on
    concrete records: it accepts [http://] or [https://] followed by a
    non-empty rest without spaces. It is evaluated only on strings on which
    it answers as the platform does. *)
Definition demo_URL_parses (s : string) : bool :=
  let rest_ok (r : string) :=
    negb (String.eqb r "") && negb (includes r " ") in
  (String.prefix "https://" s && rest_ok (String.substring 8 (String.length s - 8) s))
  || (String.prefix "http://" s && rest_ok (String.substring 7 (String.length s - 7) s)).

Definition demo_platform : Platform := {| URL_parses := demo_URL_parses |}.

End Types.

(** ** Vocabulary of the statements *)

Module Spec.

Import RegExp Zod Types Form.

(** The language of a regular expression. *)
Inductive lang : regex → string → Prop :=
  | lang_eps : lang Eps ""
  | lang_chr c : lang (Chr c) (String c "")
  | lang_class (p : ascii → bool) c : p c = true → lang (Class p) (String c "")
  | lang_seq r1 r2 s1 s2 : lang r1 s1 → lang r2 s2 → lang (Seq r1 r2) (s1 +:+ s2)
  | lang_alt_l r1 r2 s : lang r1 s → lang (Alt r1 r2) s
  | lang_alt_r r1 r2 s : lang r2 s → lang (Alt r1 r2) s
  | lang_star_nil r : lang (Star r) ""
  | lang_star_cons r s1 s2 : lang r s1 → lang (Star r) s2 → lang (Star r) (s1 +:+ s2).

(** [sub] occurs in [s]. *)
Definition contains (s sub : string) : Prop := ∃ a b, s = a +:+ sub +:+ b.

(** [s] has something, an [@], and something again. *)
Definition at_shaped (s : string) : Prop :=
  ∃ a b, a ≠ "" ∧ b ≠ "" ∧ s = a +:+ "@" +:+ b.

(** The same, computed: is there an [@] that is neither first nor last? *)
Fixpoint at_inside (after_first : bool) (s : string) : bool :=
  match s with
  | EmptyString => false
  | String c rest =>
      (after_first && Ascii.eqb c "@" && negb (String.eqb rest ""))
      || at_inside true rest
  end.

(** The messages among [issues] reported on the top-level field [key]. *)
Definition messages_at (key : string) (issues : list ZodIssue) : list string :=
  Zod.message <$> filter (λ i, path i = [key]) issues.

(** All the issues [UserSchema] reports on an input. *)
Definition validate `{Platform} (input : JsValue) : list ZodIssue :=
  (UserSchema [] input).2.

(** What validation reports on one field of an input. *)
Definition field_messages `{Platform} (key : string) (input : JsValue) : list string :=
  messages_at key (validate input).

(** A number within the bounds of the schema. *)
Definition in_bounds (n : JsNumber) : Prop :=
  ∃ q, n = Finite q ∧ (1 <= q)%Q ∧ (q <= 10)%Q.

(** A whole number from 1 to 10. *)
Definition integer_in_range (n : JsNumber) : Prop :=
  ∃ q z, n = Finite q ∧ (q == inject_Z z)%Q ∧ (1 ≤ z ≤ 10)%Z.

(** A present value that is not a number; [NaN] is what an empty or
    non-numeric number input yields under [valueAsNumber]. *)
Definition non_numeric (v : JsValue) : Prop :=
  v ≠ JsUndefined ∧ getParsedType v ≠ T_number.

(** Every field of the input holds a value of its declared type. *)
Definition well_typed (input : JsValue) (data : FormData) : Prop :=
  ∃ props,
    input = JsObj props
    ∧ own props "email" = Some (JsStr (email data))
    ∧ own props "githubUrl" = Some (JsStr (githubUrl data))
    ∧ own props "yearsOfExperience" = Some (JsNum (yearsOfExperience data))
    ∧ yearsOfExperience data ≠ NaN
    ∧ own props "password" = Some (JsStr (password data))
    ∧ own props "confirmPassword" = Some (JsStr (confirmPassword data)).

(** The issue of the refinement. *)
Definition mismatch_issue : ZodIssue :=
  {| code := custom; path := ["confirmPassword"];
     Zod.message := "Passwords do not match" |}.

(** A form record as the object the resolver hands to the schema. *)
Definition record (e g y p c : JsValue) : JsValue :=
  JsObj [ ("email", e); ("githubUrl", g); ("yearsOfExperience", y);
          ("password", p); ("confirmPassword", c) ].

(** [o[key]] for an object given by its properties: the property, or
    [undefined]. The handler reads the server's [errors] object this way, and
    an object schema its input. *)
Definition entry (props : list (string * JsValue)) (key : string) : JsValue :=
  default JsUndefined (own props key).

(** The value a result carries, unless it is aborted. *)
Definition value_of {A} (r : ParseReturnType A) : option A :=
  match r with
  | OK a | DIRTY a => Some a
  | INVALID => None
  end.

(** The values a string schema and a number schema take as their own. *)
Definition as_string (v : JsValue) : option string :=
  match v with
  | JsStr s => Some s
  | _ => None
  end.

Definition as_number (v : JsValue) : option JsNumber :=
  match v with
  | JsNum NaN => None
  | JsNum n => Some n
  | _ => None
  end.

(** A result is valid exactly when no issue was added. *)
Definition coherent {A} (r : ParseReturnType A * list ZodIssue) : Prop :=
  (∃ a, r.1 = OK a) ↔ r.2 = [].

(** What the refinement of [UserSchema] adds for an inner result. *)
Definition refinement_issues (inner : ParseReturnType FormData) : list ZodIssue :=
  match value_of inner with
  | Some data =>
      if String.eqb (password data) (confirmPassword data) then [] else [mismatch_issue]
  | None => []
  end.

(** What the handler stores for the field whose entry it surfaces. *)
Definition server_error (errs : list (string * JsValue)) (field : string) : FieldError :=
  {| type := "server"; Form.message := entry errs field |}.

(** The state before any submission. *)
Definition initial : FormState := {| errors := ∅; alerts := [] |}.

(** What each key's schema reports on its property of an object. *)
Section Issues.

Context `{Platform}.

Implicit Types props : list (string * JsValue).

Definition email_issues props := (email_schema ["email"] (entry props "email")).2.
Definition githubUrl_issues props :=
  (githubUrl_schema ["githubUrl"] (entry props "githubUrl")).2.
Definition yearsOfExperience_issues props :=
  (yearsOfExperience_schema ["yearsOfExperience"] (entry props "yearsOfExperience")).2.
Definition password_issues props :=
  (password_schema ["password"] (entry props "password")).2.
Definition confirmPassword_issues props :=
  (confirmPassword_schema ["confirmPassword"] (entry props "confirmPassword")).2.

End Issues.

End Spec.

(** ** The components

    [FormField] and what [Form] returns. An element keeps the attributes the
    source writes; of [register(name, { valueAsNumber })] the input keeps
    the two arguments. *)

Module Components.

Record FormFieldProps := {
  type : string;
  placeholder : string;
  name : Form.ValidFieldNames;
  error : option Form.FieldError;
  valueAsNumber : option bool
}.

Inductive Element :=
  | input (type placeholder : string) (name : Form.ValidFieldNames)
      (valueAsNumber : option bool)
  | span (className : string) (child : JsValue)
  | h1 (className text : string)
  | button (type className text : string)
  | div (className : string) (children : list Element)
  | form (children : list Element).

(** [FormField]: the input, and the error line when there is an error. *)
Definition FormField (props : FormFieldProps) : list Element :=
  input (type props) (placeholder props) (name props) (valueAsNumber props)
  :: match error props with
     | Some e => [span "error-message" (Form.message e)]
     | None => []
     end.

(** The props of the five fields [Form] renders, in the order it renders
    them; [errors] is [formState.errors]. *)
Definition Form_fields (errors : gmap Form.ValidFieldNames Form.FieldError)
  : list FormFieldProps :=
  [ {| type := "email"; placeholder := "Email"; name := Form.F_email;
       error := errors !! Form.F_email; valueAsNumber := None |};
    {| type := "text"; placeholder := "GitHub URL"; name := Form.F_githubUrl;
       error := errors !! Form.F_githubUrl; valueAsNumber := None |};
    {| type := "number"; placeholder := "Years of Experience (1 - 10)";
       name := Form.F_yearsOfExperience;
       error := errors !! Form.F_yearsOfExperience; valueAsNumber := Some true |};
    {| type := "password"; placeholder := "Password"; name := Form.F_password;
       error := errors !! Form.F_password; valueAsNumber := None |};
    {| type := "password"; placeholder := "Confirm Password";
       name := Form.F_confirmPassword;
       error := errors !! Form.F_confirmPassword; valueAsNumber := None |} ].

(** What [Form] returns in a given form state. *)
Definition Form (st : Form.FormState) : Element :=
  form
    [ div "grid col-auto"
        (h1 "text-3xl font-bold mb-4" "Zod & React-Hook-Form"
         :: flat_map FormField (Form_fields (Form.errors st))
         ++ [button "submit" "submit-button" "Submit"]) ].

End Components.

(** ** Submitting the form

    [useForm({ resolver: zodResolver(UserSchema) })] and
    [handleSubmit(onSubmit)]: on a submit event the resolver parses the field
    values; its errors replace the form's errors, and [onSubmit] runs, with
    the parsed record, only when there are none. *)

Module Resolver.

Definition code_name (c : Zod.ZodIssueCode) : string :=
  match c with
  | Zod.invalid_type => "invalid_type"
  | Zod.invalid_string => "invalid_string"
  | Zod.too_small => "too_small"
  | Zod.too_big => "too_big"
  | Zod.custom => "custom"
  end.

(** The field error the resolver makes of an issue. *)
Definition field_error (issue : Zod.ZodIssue) : Form.FieldError :=
  {| Form.type := code_name (Zod.code issue);
     Form.message := JsStr (Zod.message issue) |}.

(** [parseErrorSchema]: issues are taken in order, and an issue whose
    joined path already has an error is passed over. *)
Fixpoint parseErrorSchema (zodErrors : list Zod.ZodIssue)
    (errors : gmap string Form.FieldError) : gmap string Form.FieldError :=
  match zodErrors with
  | [] => errors
  | error :: rest =>
      let _path := String.concat "." (Zod.path error) in
      parseErrorSchema rest
        match errors !! _path with
        | Some _ => errors
        | None => <[_path := field_error error]> errors
        end
  end.

(** The form's errors as the component reads them: the resolver's entry for
    each of the five field names. *)
Definition fieldErrors (errors : gmap string Form.FieldError)
  : gmap Form.ValidFieldNames Form.FieldError :=
  list_to_map
    (omap (λ '(key, name), (λ e, (name, e)) <$> errors !! key) Form.fieldErrorMapping).

Section HandleSubmit.

Context `{Platform}.

(** [zodResolver(UserSchema)]: the parsed record, or the errors. *)
Definition zodResolver (values : JsValue)
  : Types.FormData + gmap string Form.FieldError :=
  match Zod.safeParse Types.UserSchema values with
  | inl data => inl data
  | inr issues => inr (parseErrorSchema issues ∅)
  end.

(** [handleSubmit(onSubmit)] on the field values, an object; [post] is what
    the request for a record comes back with. *)
Definition handleSubmit (post : Types.FormData → Form.AxiosResult)
    (values : list (string * JsValue)) (st : Form.FormState) : Form.FormState :=
  match zodResolver (JsObj values) with
  | inr errs => {| Form.errors := fieldErrors errs; Form.alerts := Form.alerts st |}
  | inl data =>
      Form.onSubmit (post data) {| Form.errors := ∅; Form.alerts := Form.alerts st |}
  end.

End HandleSubmit.

End Resolver.

(** ** Vocabulary of the further statements *)

Module Observe.

(** The children of the error lines of an element, in document order. *)
Fixpoint spans (e : Components.Element) : list JsValue :=
  match e with
  | Components.span _ child => [child]
  | Components.div _ children | Components.form children => flat_map spans children
  | _ => []
  end.

(** The names of the inputs of an element, in document order. *)
Fixpoint inputs (e : Components.Element) : list Form.ValidFieldNames :=
  match e with
  | Components.input _ _ name _ => [name]
  | Components.div _ children | Components.form children => flat_map inputs children
  | _ => []
  end.

(** The five fields, in the order of [fieldErrorMapping]. *)
Definition field_order : list Form.ValidFieldNames := Form.fieldErrorMapping.*2.

(** The first issue reported on the top-level field [key]. *)
Definition first_issue (key : string) (issues : list Zod.ZodIssue)
  : option Zod.ZodIssue :=
  head (filter (λ i, Zod.path i = [key]) issues).

(** Is every code unit of [s] a letter? *)
Fixpoint letters (s : string) : bool :=
  match s with
  | EmptyString => true
  | String c rest => Zod.letter (RegExp.canonicalize c) && letters rest
  end.

(** Can the code unit [c] occur in a word of [r]? An upper bound, read off
    the characters and classes of [r]. *)
Fixpoint alphabet (r : RegExp.regex) (c : ascii) : bool :=
  match r with
  | RegExp.Void | RegExp.Eps => false
  | RegExp.Chr a => Ascii.eqb a c
  | RegExp.Class p => p c
  | RegExp.Seq r1 r2 | RegExp.Alt r1 r2 => alphabet r1 c || alphabet r2 c
  | RegExp.Star r1 => alphabet r1 c
  end.

(** Is the code unit matched by [.], that is, not a line terminator? *)
Definition not_terminator (c : ascii) : bool :=
  negb (Ascii.eqb c "010"%char || Ascii.eqb c "013"%char).

(** The message of the default error map for a value of the wrong type. *)
Definition expected_string (v : JsValue) : string :=
  "Expected string, received " +:+ Zod.type_name (Zod.getParsedType v).

End Observe.

(** ** The verdict on a record *)

Module Verdict.

Section Verdict.

Context `{Platform}.

Implicit Types props : list (string * JsValue).

(** The schema accepts the record: parsing succeeds. *)
Definition accepted props : Prop :=
  ∃ data, Zod.safeParse Types.UserSchema (JsObj props) = inl data.

(** The rule of each field, on the record's own value. *)
Definition email_ok props : Prop :=
  ∃ e, own props "email" = Some (JsStr e) ∧ Zod.emailRegex_test e = true.

Definition githubUrl_ok props : Prop :=
  ∃ g, own props "githubUrl" = Some (JsStr g)
       ∧ URL_parses g = true ∧ Spec.contains g "github.com".

Definition yearsOfExperience_ok props : Prop :=
  ∃ n, own props "yearsOfExperience" = Some (JsNum n) ∧ Spec.in_bounds n.

Definition password_ok props : Prop :=
  ∃ s, own props "password" = Some (JsStr s) ∧ (8 ≤ String.length s ≤ 20)%nat.

(** [confirmPassword] is a string, the same as [password]. *)
Definition confirmPassword_ok props : Prop :=
  ∃ s, own props "password" = Some (JsStr s)
       ∧ own props "confirmPassword" = Some (JsStr s).

End Verdict.

End Verdict.

Import RegExp Zod Types Form Spec.

(** ** The submission handler *)

Section Submission.

Implicit Types (st : FormState) (errs : list (string * JsValue)).

Lemma find_truthy errs (l : list string) :
  find (λ field, v ← get (JsObj errs) field; Normal (truthy v)) l
  = Normal (List.find (λ f, truthy (entry errs f)) l).
Proof.
  induction l as [|f l IH]; [done|].
  cbn [find List.find]. unfold get at 1. cbn.
  fold (entry errs f). destruct (truthy (entry errs f)); [done|].
  exact IH.
Qed.

(** The handler, once the request has resolved with an [errors] object: it
    looks for the first field name with a truthy entry. *)
Lemma onSubmit_try_object data errs st :
  get data "errors" = Normal (JsObj errs) →
  onSubmit_try data st =
    match List.find (λ f, truthy (entry errs f)) (Object_keys fieldErrorMapping) with
    | Some f =>
        match mapping_get fieldErrorMapping f with
        | Some name => Normal (setError name (server_error errs f) st)
        | None => Normal st
        end
    | None => Normal st
    end.
Proof.
  intros Hget. unfold onSubmit_try, destructure_errors. rewrite Hget.
  cbn [mbind Completion_bind].
  rewrite find_truthy. cbn [mbind Completion_bind].
  destruct (List.find _ _) as [f|] eqn:Hf; [|done].
  apply List.find_some in Hf as [Hin _].
  cbn in Hin.
  destruct Hin as [<-|[<-|[<-|[<-|[<-|[]]]]]]; reflexivity.
Qed.

Lemma find_first {A} (P : A → bool) (pre : list A) x post :
  (∀ y, y ∈ pre → P y = false) → P x = true →
  List.find P (pre ++ x :: post) = Some x.
Proof.
  intros Hpre Hx. induction pre as [|y pre IH]; cbn.
  - by rewrite Hx.
  - rewrite (Hpre y) by left. apply IH. intros z Hz. apply Hpre. by right.
Qed.

Lemma find_none {A} (P : A → bool) (l : list A) :
  (∀ y, y ∈ l → P y = false) → List.find P l = None.
Proof.
  intros Hl. induction l as [|y l IH]; [done|]. cbn.
  rewrite (Hl y) by left. apply IH. intros z Hz. apply Hl. by right.
Qed.

(** The state after a resolved request whose first truthy entry, in the
    order of [fieldErrorMapping], is that of [f]. *)
Lemma onSubmit_first_truthy data errs st pre f name post :
  get data "errors" = Normal (JsObj errs) →
  fieldErrorMapping = pre ++ (f, name) :: post →
  (∀ g, g ∈ pre.*1 → truthy (entry errs g) = false) →
  truthy (entry errs f) = true →
  onSubmit (Resolved data) st = setError name (server_error errs f) st.
Proof.
  intros Hget Hsplit Hpre Hf. unfold onSubmit.
  rewrite (onSubmit_try_object _ _ _ Hget).
  unfold Object_keys. rewrite Hsplit, fmap_app, fmap_cons. cbn [fst].
  rewrite (find_first _ _ _ _ Hpre Hf).
  rewrite <- Hsplit.
  assert (mapping_get fieldErrorMapping f = Some name) as ->; [|done].
  clear -Hsplit. unfold fieldErrorMapping in *.
  do 5 (destruct pre as [|[? ?] pre]; [by simplify_eq/=|]; simplify_eq/=).
  by destruct pre.
Qed.

(** A field whose entry is falsy keeps the error it had. *)
Lemma onSubmit_falsy_untouched data errs st f name :
  get data "errors" = Normal (JsObj errs) →
  (f, name) ∈ fieldErrorMapping →
  truthy (entry errs f) = false →
  errors (onSubmit (Resolved data) st) !! name = errors st !! name.
Proof.
  intros Hget Hin Hf. unfold onSubmit.
  rewrite (onSubmit_try_object _ _ _ Hget).
  destruct (List.find _ _) as [g|] eqn:Hg; [|done].
  apply List.find_some in Hg as [Hgin Hg].
  assert (g ≠ f) by (intros ->; congruence).
  apply list_elem_of_In in Hin. cbn in Hin, Hgin.
  destruct Hin as [[= <- <-]|[[= <- <-]|[[= <- <-]|[[= <- <-]|[[= <- <-]|[]]]]]];
    destruct Hgin as [<-|[<-|[<-|[<-|[<-|[]]]]]]; try done;
    set (m := mapping_get _ _); vm_compute in m; subst m;
    cbn [errors setError]; by rewrite lookup_insert_ne.
Qed.

(** C1, as stated, fails: the response below carries entries for [email]
    and for [password]; the first of the two in field order is [email], yet
    the handler leaves [email] without an error and sets one on [password],
    because the [email] entry is the empty string. *)
Lemma onSubmit_first_entry_counterexample :
  own [("email", JsStr ""); ("password", JsStr "Weak password")] "email"
  = Some (JsStr "")
  ∧ own [("email", JsStr ""); ("password", JsStr "Weak password")] "password"
    = Some (JsStr "Weak password")
  ∧ errors (onSubmit (Resolved (JsObj [("errors",
              JsObj [("email", JsStr ""); ("password", JsStr "Weak password")])]))
              initial) !! F_email
    = None
  ∧ errors (onSubmit (Resolved (JsObj [("errors",
              JsObj [("email", JsStr ""); ("password", JsStr "Weak password")])]))
              initial) !! F_password
    = Some {| type := "server"; Form.message := JsStr "Weak password" |}.
Proof. repeat split; vm_compute; reflexivity. Qed.

(** C1, amended: for every successful response with an [errors] object, the
    handler sets a field error only on the first field, in the order email,
    githubUrl, yearsOfExperience, password, confirmPassword, whose entry is
    truthy, with type ["server"] and the server-supplied message; every other
    field keeps the error state it had, and no alert is shown. *)
Theorem onSubmit_surfaces_first_truthy data errs st pre f name post :
  get data "errors" = Normal (JsObj errs) →
  fieldErrorMapping = pre ++ (f, name) :: post →
  (∀ g, g ∈ pre.*1 → truthy (entry errs g) = false) →
  truthy (entry errs f) = true →
  let st' := onSubmit (Resolved data) st in
  errors st'
  = <[name := {| type := "server"; Form.message := entry errs f |}]> (errors st)
  ∧ alerts st' = alerts st
  ∧ (∀ other, other ≠ name → errors st' !! other = errors st !! other).
Proof.
  intros Hget Hsplit Hpre Hf st'. subst st'.
  rewrite (onSubmit_first_truthy _ _ _ _ _ _ _ Hget Hsplit Hpre Hf).
  cbn [setError errors alerts]. repeat split.
  intros other Hne. by rewrite lookup_insert_ne.
Qed.

(** The amended C1 at a response with errors for [githubUrl] and
    [password]: only [githubUrl] is set. *)
Lemma onSubmit_surfaces_first_truthy_witness :
  errors (onSubmit (Resolved (JsObj [("errors",
            JsObj [("password", JsStr "Too weak");
                   ("githubUrl", JsStr "Unknown user")])])) initial)
  = <[F_githubUrl := {| type := "server"; Form.message := JsStr "Unknown user" |}]> ∅
  ∧ alerts (onSubmit (Resolved (JsObj [("errors",
              JsObj [("password", JsStr "Too weak");
                     ("githubUrl", JsStr "Unknown user")])])) initial)
    = []
  ∧ errors (onSubmit (Resolved (JsObj [("errors",
              JsObj [("password", JsStr "Too weak");
                     ("githubUrl", JsStr "Unknown user")])])) initial) !! F_password
    = None.
Proof.
  destruct (onSubmit_surfaces_first_truthy
              (JsObj [("errors",
                 JsObj [("password", JsStr "Too weak");
                        ("githubUrl", JsStr "Unknown user")])])
              [("password", JsStr "Too weak"); ("githubUrl", JsStr "Unknown user")]
              initial
              [("email", F_email)] "githubUrl" F_githubUrl
              [("yearsOfExperience", F_yearsOfExperience); ("password", F_password);
               ("confirmPassword", F_confirmPassword)])
    as (Herrors & Halerts & Hothers).
  - reflexivity.
  - reflexivity.
  - intros g Hg. apply list_elem_of_In in Hg. cbn in Hg.
    destruct Hg as [<-|[]]. reflexivity.
  - reflexivity.
  - split; [exact Herrors|]. split; [exact Halerts|].
    apply (Hothers F_password). discriminate.
Defined.

(** The [try] block, when it completes, has shown no alert. *)
Lemma onSubmit_try_alerts data st st' :
  onSubmit_try data st = Normal st' → alerts st' = alerts st.
Proof.
  unfold onSubmit_try.
  destruct (destructure_errors data) as [errs|]; cbn [mbind Completion_bind];
    [|discriminate].
  destruct (find _ _) as [[field|]|]; cbn [mbind Completion_bind];
    [| |discriminate]; [|by intros [= <-]].
  destruct (truthy (JsStr field)); [|by intros [= <-]].
  destruct (get errs field); cbn [mbind Completion_bind]; [|discriminate].
  destruct (mapping_get fieldErrorMapping field); by intros [= <-].
Qed.

(** C8: when the request is rejected the handler shows exactly one alert,
    the generic failure notification, and leaves the field errors as they
    were. The same holds of whatever else is thrown inside the [try] block:
    a submission that shows an alert has set no field error. *)
Theorem onSubmit_rejected st :
  let st' := onSubmit Rejected st in
  alerts st' = alerts st ++ ["Submitting form failed!"]
  ∧ errors st' = errors st
  ∧ (∀ name, errors st' !! name = errors st !! name)
  ∧ (∀ result, alerts (onSubmit result st) ≠ alerts st →
       alerts (onSubmit result st) = alerts st ++ ["Submitting form failed!"]
       ∧ errors (onSubmit result st) = errors st).
Proof.
  repeat split; try done.
  - destruct result as [|data]; [done|]. unfold onSubmit in *.
    destruct (onSubmit_try data st) as [st1|] eqn:Htry; [|done].
    by apply onSubmit_try_alerts in Htry.
  - destruct result as [|data]; [done|]. unfold onSubmit in *.
    destruct (onSubmit_try data st) as [st1|] eqn:Htry; [|done].
    by apply onSubmit_try_alerts in Htry.
Qed.

(** C8 at a request that resolves with an empty body: reading [errors] from
    [null] throws, and the outcome is that of a rejected request. *)
Lemma onSubmit_rejected_witness :
  alerts (onSubmit (Resolved JsNull) initial) = ["Submitting form failed!"]
  ∧ errors (onSubmit (Resolved JsNull) initial) = ∅
  ∧ onSubmit Rejected initial = onSubmit (Resolved JsNull) initial.
Proof.
  destruct (onSubmit_rejected initial) as (_ & _ & _ & Hthrown).
  destruct (Hthrown (Resolved JsNull)) as [Halerts Herrors]; [discriminate|].
  split; [exact Halerts|]. split; [exact Herrors|]. reflexivity.
Defined.

(** C9: after a successful response whose body has no [errors] property,
    or whose [errors] object has no entry for any of the five field names,
    the field errors are what they were; when the body is an object the
    whole state is. *)
Theorem onSubmit_without_entries data st :
  (∀ props, data = JsObj props → own props "errors" = None)
  ∨ (∃ props errs,
       data = JsObj props
       ∧ own props "errors" = Some (JsObj errs)
       ∧ ∀ f, f ∈ Object_keys fieldErrorMapping → own errs f = None) →
  let st' := onSubmit (Resolved data) st in
  errors st' = errors st ∧ (∀ props, data = JsObj props → st' = st).
Proof.
  intros [Hnone|(props & errs & -> & Herrs & Hno)] st'; subst st'.
  - destruct data as [| | | | | |props]; try (split; [reflexivity|done]).
    specialize (Hnone props eq_refl).
    assert (get (JsObj props) "errors" = Normal JsUndefined) as Hget
      by (cbn; by rewrite Hnone).
    unfold onSubmit, onSubmit_try, destructure_errors. rewrite Hget.
    split; [reflexivity|]. intros ? _. reflexivity.
  - assert (get (JsObj props) "errors" = Normal (JsObj errs)) as Hget
      by (cbn; by rewrite Herrs).
    unfold onSubmit. rewrite (onSubmit_try_object _ _ _ Hget).
    rewrite find_none; [split; [reflexivity|done]|].
    intros f Hf. unfold entry. by rewrite (Hno f Hf).
Qed.

(** C9 at a body with an [errors] object that names an unknown field. *)
Lemma onSubmit_without_entries_witness :
  errors (onSubmit (Resolved (JsObj [("errors", JsObj [("username", JsStr "taken")])]))
            initial)
  = errors initial
  ∧ onSubmit (Resolved (JsObj [("errors", JsObj [("username", JsStr "taken")])]))
      initial
    = initial.
Proof.
  destruct (onSubmit_without_entries
              (JsObj [("errors", JsObj [("username", JsStr "taken")])]) initial)
    as [Herrors Hstate]; [|split; [exact Herrors|by eapply Hstate]].
  right. exists [("errors", JsObj [("username", JsStr "taken")])],
                [("username", JsStr "taken")].
  split; [reflexivity|]. split; [reflexivity|].
  intros f Hf. apply list_elem_of_In in Hf. cbn in Hf.
  destruct Hf as [<-|[<-|[<-|[<-|[<-|[]]]]]]; reflexivity.
Defined.

(** C10: entries are tested by truthiness. After a successful response with
    an [errors] object, a field whose entry is falsy, as the empty string
    is, keeps the error state it had, although the key is present; the
    field surfaced is the first one whose entry is truthy; and when no entry
    is truthy the state does not change. *)
Theorem onSubmit_tests_truthiness data errs st :
  get data "errors" = Normal (JsObj errs) →
  let st' := onSubmit (Resolved data) st in
  truthy (JsStr "") = false
  ∧ (∀ f name, (f, name) ∈ fieldErrorMapping → truthy (entry errs f) = false →
       errors st' !! name = errors st !! name)
  ∧ (∀ pre f name post,
       fieldErrorMapping = pre ++ (f, name) :: post →
       (∀ g, g ∈ pre.*1 → truthy (entry errs g) = false) →
       truthy (entry errs f) = true →
       errors st' !! name = Some (server_error errs f))
  ∧ ((∀ f, f ∈ Object_keys fieldErrorMapping → truthy (entry errs f) = false) →
       st' = st).
Proof.
  intros Hget st'. subst st'. split; [reflexivity|]. split; [|split].
  - intros f name Hin Hf. by eapply onSubmit_falsy_untouched.
  - intros pre f name post Hsplit Hpre Hf.
    rewrite (onSubmit_first_truthy _ _ _ _ _ _ _ Hget Hsplit Hpre Hf).
    cbn [setError errors]. by rewrite lookup_insert_eq.
  - intros Hall. unfold onSubmit. rewrite (onSubmit_try_object _ _ _ Hget).
    by rewrite find_none.
Qed.

(** C10 at a response whose [email] entry is the empty string and whose
    [password] entry is a message: [email] is skipped, [password] is
    surfaced. *)
Lemma onSubmit_tests_truthiness_witness :
  errors (onSubmit (Resolved (JsObj [("errors",
            JsObj [("email", JsStr ""); ("password", JsStr "Weak password")])]))
            initial) !! F_email
  = errors initial !! F_email
  ∧ errors (onSubmit (Resolved (JsObj [("errors",
              JsObj [("email", JsStr ""); ("password", JsStr "Weak password")])]))
              initial) !! F_password
    = Some {| type := "server"; Form.message := JsStr "Weak password" |}.
Proof.
  destruct (onSubmit_tests_truthiness
              (JsObj [("errors",
                 JsObj [("email", JsStr ""); ("password", JsStr "Weak password")])])
              [("email", JsStr ""); ("password", JsStr "Weak password")]
              initial eq_refl)
    as (_ & Hfalsy & Hfirst & _).
  split.
  - apply (Hfalsy "email" F_email); [|reflexivity].
    apply list_elem_of_In. left. reflexivity.
  - apply (Hfirst [("email", F_email); ("githubUrl", F_githubUrl);
                   ("yearsOfExperience", F_yearsOfExperience)]
                  "password" F_password [("confirmPassword", F_confirmPassword)]);
      [reflexivity| |reflexivity].
    intros g Hg. apply list_elem_of_In in Hg. cbn in Hg.
    destruct Hg as [<-|[<-|[<-|[]]]]; reflexivity.
Defined.

End Submission.

(** ** The schema *)

Section Validation.

Context `{Platform}.

Implicit Types (props : list (string * JsValue)) (p : list string) (v : JsValue).

(** *** How the combinators compose *)

Lemma shape_key_eq {A B} (shape : ZodRawShape (A → B)) key (schema : ZodType A) p props :
  shape_key shape key schema p props
  = (merge (shape p props).1 (schema (p ++ [key]) (entry props key)).1,
     (shape p props).2 ++ (schema (p ++ [key]) (entry props key)).2).
Proof.
  unfold shape_key, entry.
  destruct (shape p props), (schema _ _). reflexivity.
Qed.

Lemma value_of_merge {A B} (f : ParseReturnType (A → B)) (x : ParseReturnType A) :
  value_of (merge f x)
  = match value_of f, value_of x with
    | Some g, Some a => Some (g a)
    | _, _ => None
    end.
Proof. by destruct f, x. Qed.

Lemma after_checks_issues {A} (a : A) issues : (after_checks a issues).2 = issues.
Proof. by destruct issues. Qed.

Lemma after_checks_value {A} (a : A) issues : value_of (after_checks a issues).1 = Some a.
Proof. by destruct issues. Qed.

Lemma z_string_value checks p v : value_of (z_string checks p v).1 = as_string v.
Proof. destruct v; try done. apply after_checks_value. Qed.

Lemma z_number_value params checks p v :
  value_of (z_number params checks p v).1 = as_number v.
Proof. destruct v as [| | |[]| | |]; try done; apply after_checks_value. Qed.

Lemma z_string_issues checks p s :
  (z_string checks p (JsStr s)).2 = flat_map (run_string_check p s) checks.
Proof. apply after_checks_issues. Qed.

Lemma z_string_path checks p v i : i ∈ (z_string checks p v).2 → path i = p.
Proof.
  destruct v; cbn; try (intros ->%list_elem_of_singleton; done).
  rewrite after_checks_issues. intros Hi%list_elem_of_In.
  apply in_flat_map in Hi as (check & _ & Hi).
  destruct check; cbn in Hi; case_match; cbn in Hi; by intuition subst.
Qed.

Lemma z_number_path params checks p v i : i ∈ (z_number params checks p v).2 → path i = p.
Proof.
  assert (∀ n, i ∈ flat_map (run_number_check p n) checks → path i = p) as Hchecks.
  { intros n Hi%list_elem_of_In. apply in_flat_map in Hi as (check & _ & Hi).
    destruct check; cbn in Hi; case_match; cbn in Hi; by intuition subst. }
  destruct v as [| | |[]| | |]; cbn; try (intros ->%list_elem_of_singleton; done);
    rewrite after_checks_issues; apply Hchecks.
Qed.

Lemma messages_at_app key l1 l2 :
  messages_at key (l1 ++ l2) = messages_at key l1 ++ messages_at key l2.
Proof. unfold messages_at. by rewrite filter_app, fmap_app. Qed.

Lemma messages_at_other key p l :
  p ≠ [key] → (∀ i, i ∈ l → path i = p) → messages_at key l = [].
Proof.
  intros Hne Hl. unfold messages_at.
  induction l as [|i l IH]; [done|].
  rewrite filter_cons_False.
  - apply IH. intros j Hj. apply Hl. by right.
  - rewrite (Hl i) by left. done.
Qed.

Lemma messages_at_same key l :
  (∀ i, i ∈ l → path i = [key]) → messages_at key l = Zod.message <$> l.
Proof.
  intros Hl. unfold messages_at.
  induction l as [|i l IH]; [done|].
  rewrite filter_cons_True by (apply Hl; left).
  cbn. f_equal. apply IH. intros j Hj. apply Hl. by right.
Qed.

(** *** The issues of [UserSchema] on an object *)

Lemma UserSchema_object_issues props :
  (UserSchema_object [] (JsObj props)).2
  = email_issues props ++ githubUrl_issues props ++ yearsOfExperience_issues props
    ++ password_issues props ++ confirmPassword_issues props.
Proof.
  unfold UserSchema_object, z_object. rewrite !shape_key_eq. cbn [fst snd].
  unfold shape_start. cbn [fst snd app]. by rewrite <- !app_assoc.
Qed.

Lemma UserSchema_object_value props :
  value_of (UserSchema_object [] (JsObj props)).1
  = e ← as_string (entry props "email");
    g ← as_string (entry props "githubUrl");
    y ← as_number (entry props "yearsOfExperience");
    pw ← as_string (entry props "password");
    c ← as_string (entry props "confirmPassword");
    Some (Build_FormData e g y pw c).
Proof.
  unfold UserSchema_object, z_object. rewrite !shape_key_eq. cbn [fst snd].
  rewrite !value_of_merge. unfold shape_start. cbn [fst snd app value_of].
  unfold email_schema, githubUrl_schema, yearsOfExperience_schema, password_schema,
    confirmPassword_schema.
  rewrite !z_string_value, z_number_value.
  destruct (as_string (entry props "email")), (as_string (entry props "githubUrl")),
    (as_number (entry props "yearsOfExperience")), (as_string (entry props "password")),
    (as_string (entry props "confirmPassword")); reflexivity.
Qed.

Lemma refine_issues_eq v :
  validate v = (UserSchema_object [] v).2 ++ refinement_issues (UserSchema_object [] v).1.
Proof.
  unfold validate, UserSchema, refine, refinement_issues.
  destruct (UserSchema_object [] v) as [[a|a|] issues]; cbn [fst snd value_of];
    try (destruct (String.eqb _ _)); by rewrite ?app_nil_r.
Qed.

Lemma validate_object props :
  validate (JsObj props)
  = email_issues props ++ githubUrl_issues props ++ yearsOfExperience_issues props
    ++ password_issues props ++ confirmPassword_issues props
    ++ refinement_issues (UserSchema_object [] (JsObj props)).1.
Proof. rewrite refine_issues_eq, UserSchema_object_issues. by rewrite <- !app_assoc. Qed.

End Validation.

(** ** Strings and patterns *)

Section Strings.

Implicit Types (s sub : string) (r : regex).

Lemma app_cons c s1 s2 : String c s1 +:+ s2 = String c (s1 +:+ s2).
Proof. reflexivity. Qed.

Lemma app_empty_l s : "" +:+ s = s.
Proof. reflexivity. Qed.

Lemma app_empty_r s : s +:+ "" = s.
Proof. induction s as [|c s IH]; [done|]. by rewrite app_cons, IH. Qed.

Lemma string_app_assoc s1 s2 s3 : (s1 +:+ s2) +:+ s3 = s1 +:+ s2 +:+ s3.
Proof. induction s1 as [|c s1 IH]; [done|]. by rewrite !app_cons, IH. Qed.

Lemma app_eq_empty s1 s2 : s1 +:+ s2 = "" → s1 = "" ∧ s2 = "".
Proof. destruct s1; [done|]. rewrite app_cons. discriminate. Qed.

Lemma prefix_spec sub s : String.prefix sub s = true ↔ ∃ b, s = sub +:+ b.
Proof.
  revert s. induction sub as [|c sub IH]; intros s.
  - split; [intros _; by exists s|]. by destruct s.
  - destruct s as [|d s]; cbn [String.prefix].
    + split; [done|]. intros [b Hb]. rewrite app_cons in Hb. discriminate.
    + destruct (ascii_dec c d) as [->|Hne].
      * rewrite IH. split; intros [b Hb]; exists b.
        -- by rewrite app_cons, Hb.
        -- rewrite app_cons in Hb. by injection Hb.
      * split; [done|]. intros [b Hb]. rewrite app_cons in Hb. congruence.
Qed.

(** [includes] decides [contains]. *)
Lemma includes_spec s sub : includes s sub = true ↔ contains s sub.
Proof.
  unfold contains. induction s as [|c s IH]; cbn [includes].
  - rewrite orb_false_r, prefix_spec. split.
    + intros [b Hb]. by exists "", b.
    + intros (a & b & Hab). exists b. symmetry in Hab.
      apply app_eq_empty in Hab as [_ Hab]. by rewrite Hab.
  - rewrite orb_true_iff, prefix_spec, IH. split.
    + intros [[b Hb]|(a & b & Hab)].
      * by exists "", b.
      * exists (String c a), b. by rewrite app_cons, Hab.
    + intros ([|d a] & b & Hab).
      * left. by exists b.
      * right. rewrite app_cons in Hab. injection Hab as -> ->. by exists a, b.
Qed.

Lemma at_inside_true a b : b ≠ "" → at_inside true (a +:+ "@" +:+ b) = true.
Proof.
  intros Hb. induction a as [|c a IH].
  - rewrite app_empty_l, app_cons, app_empty_l. cbn.
    apply String.eqb_neq in Hb. by rewrite Hb.
  - rewrite app_cons. cbn [at_inside]. rewrite IH. apply orb_true_r.
Qed.

Lemma at_inside_sound after_first s :
  at_inside after_first s = true →
  ∃ a b, (after_first = false → a ≠ "") ∧ b ≠ "" ∧ s = a +:+ "@" +:+ b.
Proof.
  revert after_first. induction s as [|c s IH]; intros af; [done|].
  cbn [at_inside]. intros [Hhere|Hlater]%orb_true_iff.
  - apply andb_true_iff in Hhere as [[-> Hc]%andb_true_iff Hs].
    apply Ascii.eqb_eq in Hc as ->.
    apply negb_true_iff, String.eqb_neq in Hs.
    exists "", s. split; [done|]. split; [done|]. reflexivity.
  - apply IH in Hlater as (a & b & _ & Hb & ->).
    exists (String c a), b. split; [done|]. split; [done|]. by rewrite app_cons.
Qed.

(** [at_inside false] decides [at_shaped]. *)
Lemma at_inside_spec s : at_inside false s = true ↔ at_shaped s.
Proof.
  split.
  - intros (a & b & Ha & Hb & ->)%at_inside_sound. exists a, b. auto.
  - intros ([|c a] & b & Ha & Hb & ->); [done|].
    rewrite app_cons. cbn [at_inside andb orb]. by apply at_inside_true.
Qed.

(** The matcher accepts only words of the language. *)
Lemma nullable_sound r : nullable r = true → lang r "".
Proof.
  induction r; cbn; try done.
  - intros _. constructor.
  - intros [H1 H2]%andb_true_iff. change "" with ("" +:+ ""). constructor; auto.
  - intros [H1|H2]%orb_true_iff; [apply lang_alt_l|apply lang_alt_r]; auto.
  - intros _. constructor.
Qed.

Lemma lang_empty_nullable r s : lang r s → s = "" → nullable r = true.
Proof.
  induction 1 as [| | |r1 r2 s1 s2 _ IH1 _ IH2|r1 r2 s _ IH|r1 r2 s _ IH| |];
    intros Hs; cbn; try done.
  - apply app_eq_empty in Hs as [-> ->]. by rewrite IH1, IH2.
  - by rewrite IH.
  - rewrite IH by done. apply orb_true_r.
Qed.

Lemma deriv_sound a r s : lang (deriv a r) s → lang r (String a s).
Proof.
  revert s. induction r as [| |c|p|r1 IH1 r2 IH2|r1 IH1 r2 IH2|r IH]; intros s; cbn.
  - inversion 1.
  - inversion 1.
  - destruct (Ascii.eqb_spec c a) as [->|]; inversion 1. constructor.
  - destruct (p a) eqn:Hp; inversion 1. by constructor.
  - inversion 1 as [| | | |? ? ? Hl|? ? ? Hr| |]; subst.
    + inversion Hl as [| | |? ? s1 s2 H1 H2| | | |]; subst.
      rewrite <- app_cons. constructor; auto.
    + destruct (nullable r1) eqn:Hn; [|inversion Hr].
      rewrite <- (app_empty_l (String a s)). constructor; auto using nullable_sound.
  - inversion 1; subst; [apply lang_alt_l|apply lang_alt_r]; auto.
  - inversion 1 as [| | |? ? s1 s2 H1 H2| | | |]; subst.
    rewrite <- app_cons. constructor; auto.
Qed.

Lemma matches_sound r s : matches r s = true → lang r s.
Proof.
  revert r. induction s as [|a s IH]; intros r; cbn.
  - apply nullable_sound.
  - intros Hm. apply deriv_sound, IH, Hm.
Qed.

(** Whatever the email pattern accepts has a non-empty part on each side of
    an [@]. *)
Lemma emailRegex_at_shaped s : emailRegex_test s = true → at_shaped s.
Proof.
  unfold emailRegex_test. intros [_ Hbody%matches_sound]%andb_true_iff.
  unfold emailRegex_body in Hbody.
  inversion Hbody as [| | |? ? s1 t1 _ Ht1| | | |]; subst.
  inversion Ht1 as [| | |? ? s2 t2 Hlast Ht2| | | |]; subst.
  inversion Ht2 as [| | |? ? s3 t3 Hat Hdomain| | | |]; subst.
  inversion Hlast; subst. inversion Hat; subst.
  exists (s1 +:+ String c ""), t3. split; [|split].
  - intros [_ ?]%app_eq_empty. discriminate.
  - intros ->. by apply lang_empty_nullable in Hdomain.
  - by rewrite string_app_assoc.
Qed.

End Strings.

(** ** What validation reports, field by field *)

Section Fields.

Context `{Platform}.

Implicit Types (props : list (string * JsValue)) (p : list string) (v : JsValue).

Lemma after_checks_coherent {A} (a : A) issues : coherent (after_checks a issues).
Proof.
  destruct issues as [|i l]; unfold coherent; cbn.
  - split; [done|]. intros _. by eexists.
  - split; [|done]. intros [? ?]. discriminate.
Qed.

Lemma z_string_coherent checks p v : coherent (z_string checks p v).
Proof.
  destruct v; try (split; cbn; [by intros [? ?]|done]).
  apply after_checks_coherent.
Qed.

Lemma z_number_coherent params checks p v : coherent (z_number params checks p v).
Proof.
  destruct v as [| | |[]| | |]; try (split; cbn; [by intros [? ?]|done]);
    apply after_checks_coherent.
Qed.

Lemma shape_key_coherent {A B} (shape : ZodRawShape (A → B)) key (schema : ZodType A)
    p props :
  coherent (shape p props) →
  coherent (schema (p ++ [key]) (entry props key)) →
  coherent (shape_key shape key schema p props).
Proof.
  rewrite shape_key_eq. unfold coherent. cbn [fst snd].
  destruct (shape p props) as [f i1], (schema _ _) as [x i2]. cbn [fst snd].
  intros [Hf1 Hf2] [Hx1 Hx2]. split.
  - intros [b Hb]. destruct f, x; try done.
    rewrite Hf1, Hx1 by eauto. done.
  - intros [-> ->]%app_eq_nil.
    destruct Hf2 as [g ->]; [done|]. destruct Hx2 as [a ->]; [done|]. by eexists.
Qed.

Lemma UserSchema_object_coherent v : coherent (UserSchema_object [] v).
Proof.
  destruct v as [| | | | | |props]; try (split; cbn; [by intros [? ?]|done]).
  unfold UserSchema_object, z_object.
  repeat apply shape_key_coherent;
    try apply z_string_coherent; try apply z_number_coherent.
  split; [done|]. by eexists.
Qed.

Lemma UserSchema_coherent v : coherent (UserSchema [] v).
Proof.
  pose proof (UserSchema_object_coherent v) as [H1 H2].
  unfold UserSchema, refine, coherent.
  destruct (UserSchema_object [] v) as [[a|a|] issues]; cbn [fst snd] in *.
  - rewrite H1 by eauto. destruct (String.eqb _ _); cbn.
    + split; [done|]. intros _. by eexists.
    + split; [|done]. intros [? ?]. discriminate.
  - destruct (String.eqb _ _); cbn; (split; [intros [? ?]; discriminate|]).
    + intros ->. by destruct H2.
    + by intros [? ?]%app_eq_nil.
  - cbn. split; [intros [? ?]; discriminate|]. intros ->. by destruct H2.
Qed.

Lemma refine_value v :
  value_of (UserSchema [] v).1 = value_of (UserSchema_object [] v).1.
Proof.
  unfold UserSchema, refine.
  destruct (UserSchema_object [] v) as [[a|a|] issues]; cbn [fst];
    try destruct (String.eqb _ _); reflexivity.
Qed.

(** Parsing succeeds exactly when no issue is reported, and then yields the
    record of the values read. *)
Lemma safeParse_success v :
  (∃ data, safeParse UserSchema v = inl data) ↔ validate v = [].
Proof.
  unfold validate. split.
  - intros [data Hd]. apply UserSchema_coherent. unfold safeParse in Hd.
    destruct (UserSchema [] v) as [[a|a|] issues]; cbn in *; try discriminate.
    by eexists.
  - intros [a Ha]%UserSchema_coherent. unfold safeParse.
    destruct (UserSchema [] v) as [r issues]. cbn in Ha. subst r. by eexists.
Qed.

Lemma safeParse_data v data :
  validate v = [] →
  value_of (UserSchema_object [] v).1 = Some data →
  safeParse UserSchema v = inl data.
Proof.
  unfold validate. intros [a Ha]%UserSchema_coherent Hdata.
  rewrite <- refine_value in Hdata. unfold safeParse.
  destruct (UserSchema [] v) as [r issues]. cbn in Ha, Hdata. subst r.
  cbn in Hdata. congruence.
Qed.

Lemma refinement_issue r i : i ∈ refinement_issues r → i = mismatch_issue.
Proof.
  unfold refinement_issues. destruct (value_of r); [|by intros ?%elem_of_nil].
  destruct (String.eqb _ _); [by intros ?%elem_of_nil|].
  by intros ->%list_elem_of_singleton.
Qed.

Lemma refinement_path r i : i ∈ refinement_issues r → path i = ["confirmPassword"].
Proof. by intros ->%refinement_issue. Qed.

Ltac paths :=
  first [ done
        | intro; apply z_string_path
        | intro; apply z_number_path
        | intro; apply refinement_path ].

(** Keep, of the issues of an object, those of one key. *)
Ltac isolate key props :=
  unfold field_messages; rewrite validate_object, !messages_at_app;
  try rewrite (messages_at_other key ["email"] (email_issues props)) by paths;
  try rewrite (messages_at_other key ["githubUrl"] (githubUrl_issues props)) by paths;
  try rewrite (messages_at_other key ["yearsOfExperience"]
                 (yearsOfExperience_issues props)) by paths;
  try rewrite (messages_at_other key ["password"] (password_issues props)) by paths;
  try rewrite (messages_at_other key ["confirmPassword"]
                 (confirmPassword_issues props)) by paths;
  try rewrite (messages_at_other key ["confirmPassword"]
                 (refinement_issues (UserSchema_object [] (JsObj props)).1)) by paths;
  rewrite ?app_nil_l, ?app_nil_r;
  apply messages_at_same; paths.

Lemma field_messages_email props :
  field_messages "email" (JsObj props) = Zod.message <$> email_issues props.
Proof. isolate "email" props. Qed.

Lemma field_messages_githubUrl props :
  field_messages "githubUrl" (JsObj props) = Zod.message <$> githubUrl_issues props.
Proof. isolate "githubUrl" props. Qed.

Lemma field_messages_yearsOfExperience props :
  field_messages "yearsOfExperience" (JsObj props)
  = Zod.message <$> yearsOfExperience_issues props.
Proof. isolate "yearsOfExperience" props. Qed.

Lemma field_messages_password props :
  field_messages "password" (JsObj props) = Zod.message <$> password_issues props.
Proof. isolate "password" props. Qed.

End Fields.

(** ** The rules of the schema *)

Section Rules.

Context `{Platform}.

Implicit Types (props : list (string * JsValue)) (p : list string) (v : JsValue).

(** The messages of the [yearsOfExperience] schema, value by value. *)
Lemma years_schema_messages p v :
  Zod.message <$> (yearsOfExperience_schema p v).2
  = match v with
    | JsUndefined => ["required field"]
    | JsNum (Finite q) =>
        (if Qle_bool 1 q then [] else ["Number must be greater than or equal to 1"])
        ++ (if Qle_bool q 10 then [] else ["Number must be less than or equal to 10"])
    | JsNum NegInf => ["Number must be greater than or equal to 1"]
    | JsNum PosInf => ["Number must be less than or equal to 10"]
    | _ => ["Years of Experience is required"]
    end.
Proof.
  destruct v as [| | |[| | |q]| | |]; try reflexivity.
  unfold yearsOfExperience_schema, z_number. rewrite after_checks_issues.
  cbn [flat_map run_number_check lt gt of_Z].
  change (inject_Z 1) with 1%Q. change (inject_Z 10) with 10%Q.
  destruct (Qle_bool 1 q), (Qle_bool q 10); reflexivity.
Qed.

(** The messages of the [password] schema on a string. *)
Lemma password_messages_of p s :
  Zod.message <$> (password_schema p (JsStr s)).2
  = (if (String.length s <? 8)%nat then ["Password is too short"] else [])
    ++ (if (20 <? String.length s)%nat then ["Password is too long"] else []).
Proof.
  unfold password_schema. rewrite z_string_issues.
  cbn [flat_map run_string_check].
  destruct (String.length s <? 8)%nat, (20 <? String.length s)%nat; reflexivity.
Qed.

(** The messages of the [githubUrl] schema on a string: both checks run. *)
Lemma githubUrl_messages_of p g :
  Zod.message <$> (githubUrl_schema p (JsStr g)).2
  = (if URL_parses g then [] else ["Invalid url"])
    ++ (if includes g "github.com" then [] else ["Invalid GitHub URL"]).
Proof.
  unfold githubUrl_schema. rewrite z_string_issues.
  cbn [flat_map run_string_check].
  destruct (URL_parses g), (includes g "github.com"); reflexivity.
Qed.

Lemma z_string_not_string checks p v :
  as_string v = None → ∃ i, (z_string checks p v).2 = [i].
Proof. destruct v; try discriminate; intros _; by eexists. Qed.

(** C7: an email that has no [@] with something on each side of it fails
    validation, and the one message reported on the [email] field is the
    email message. *)
Theorem email_without_at props e :
  own props "email" = Some (JsStr e) →
  ¬ at_shaped e →
  field_messages "email" (JsObj props) = ["Invalid email"]
  ∧ (∀ data, safeParse UserSchema (JsObj props) ≠ inl data).
Proof.
  intros Hown Hshape.
  assert (emailRegex_test e = false) as Htest.
  { destruct (emailRegex_test e) eqn:Ht; [|done].
    by apply emailRegex_at_shaped in Ht. }
  assert (field_messages "email" (JsObj props) = ["Invalid email"]) as Hmsgs.
  { rewrite field_messages_email. unfold email_issues, entry, email_schema.
    rewrite Hown. cbn [default from_option id]. rewrite z_string_issues.
    cbn [flat_map run_string_check]. by rewrite Htest. }
  split; [done|]. intros data Hdata.
  assert (validate (JsObj props) = []) as Hvalid
    by (apply safeParse_success; eauto).
  unfold field_messages in Hmsgs. rewrite Hvalid in Hmsgs. discriminate.
Qed.

(** *** The refinement *)

Lemma z_string_code checks p v i : i ∈ (z_string checks p v).2 → code i ≠ custom.
Proof.
  destruct v; cbn; try (intros ->%list_elem_of_singleton; done).
  rewrite after_checks_issues. intros Hi%list_elem_of_In.
  apply in_flat_map in Hi as (check & _ & Hi).
  destruct check; cbn in Hi; case_match; cbn in Hi; by intuition subst.
Qed.

Lemma z_number_code params checks p v i :
  i ∈ (z_number params checks p v).2 → code i ≠ custom.
Proof.
  assert (∀ n, i ∈ flat_map (run_number_check p n) checks → code i ≠ custom) as Hchecks.
  { intros n Hi%list_elem_of_In. apply in_flat_map in Hi as (check & _ & Hi).
    destruct check; cbn in Hi; case_match; cbn in Hi; by intuition subst. }
  destruct v as [| | |[]| | |]; cbn; try (intros ->%list_elem_of_singleton; done);
    rewrite after_checks_issues; apply Hchecks.
Qed.

(** A custom issue can only come from the refinement. *)
Lemma custom_issue_origin v i :
  i ∈ validate v → code i = custom →
  i ∈ refinement_issues (UserSchema_object [] v).1.
Proof.
  intros Hi Hcode. destruct v as [| | | | | |props];
    try (apply list_elem_of_singleton in Hi as ->; discriminate).
  rewrite validate_object in Hi.
  repeat (apply elem_of_app in Hi as [Hi|Hi];
          [exfalso; first [ by apply z_string_code in Hi
                          | by apply z_number_code in Hi ]|]).
  exact Hi.
Qed.

(** The object schema carries a value exactly when every field holds a
    value of its type. *)
Lemma well_typed_value props data :
  value_of (UserSchema_object [] (JsObj props)).1 = Some data
  ↔ well_typed (JsObj props) data.
Proof.
  rewrite UserSchema_object_value. unfold well_typed, entry. split.
  - intros Hv. exists props. split; [done|].
    destruct (own props "email") as [[| | | |e| |]|]; try discriminate.
    destruct (own props "githubUrl") as [[| | | |g| |]|]; try discriminate.
    destruct (own props "yearsOfExperience") as [[| | |[| | |q]| | |]|];
      try discriminate;
      destruct (own props "password") as [[| | | |pw| |]|]; try discriminate;
      destruct (own props "confirmPassword") as [[| | | |c| |]|]; try discriminate;
      injection Hv as <-; by repeat split.
  - intros (props' & [= <-] & -> & -> & -> & Hn & -> & ->).
    destruct data as [e g [] pw c]; by cbn in *.
Qed.

(** C5, amended: the equality check is evaluated on the records in which
    every field holds a value of its declared type, whether or not the
    fields pass their further checks; it fails exactly when, on such a
    record, the two passwords differ, and its error is attached to the
    [confirmPassword] field, never to [password]. With the other fields
    valid, password ["Secret123"] and confirmPassword ["Different"] fail
    with the one issue ["Passwords do not match"] on [confirmPassword], and
    identical values pass. *)
Theorem passwords_match_refinement input e g n :
  emailRegex_test e = true →
  URL_parses g = true →
  contains g "github.com" →
  in_bounds n →
  (mismatch_issue ∈ validate input
   ↔ ∃ data, well_typed input data ∧ password data ≠ confirmPassword data)
  ∧ (∀ i, i ∈ validate input → code i = custom →
          path i = ["confirmPassword"] ∧ path i ≠ ["password"]
          ∧ Zod.message i = "Passwords do not match")
  ∧ validate (record (JsStr e) (JsStr g) (JsNum n) (JsStr "Secret123") (JsStr "Different"))
    = [mismatch_issue]
  ∧ safeParse UserSchema
      (record (JsStr e) (JsStr g) (JsNum n) (JsStr "Secret123") (JsStr "Secret123"))
    = inl {| email := e; githubUrl := g; yearsOfExperience := n;
             password := "Secret123"; confirmPassword := "Secret123" |}.
Proof.
  intros He Hg Hgh%includes_spec (q & -> & Hq1%Qle_bool_iff & Hq2%Qle_bool_iff).
  assert (∀ pw c, String.length pw = 9 →
            validate (record (JsStr e) (JsStr g) (JsNum (Finite q)) (JsStr pw) (JsStr c))
            = refinement_issues
                (OK {| email := e; githubUrl := g; yearsOfExperience := Finite q;
                       password := pw; confirmPassword := c |})
            ∧ value_of (UserSchema_object []
                (record (JsStr e) (JsStr g) (JsNum (Finite q)) (JsStr pw) (JsStr c))).1
              = Some {| email := e; githubUrl := g; yearsOfExperience := Finite q;
                        password := pw; confirmPassword := c |}) as Hrecord.
  { intros pw c Hlen.
    assert (value_of (UserSchema_object []
              (record (JsStr e) (JsStr g) (JsNum (Finite q)) (JsStr pw) (JsStr c))).1
            = Some {| email := e; githubUrl := g; yearsOfExperience := Finite q;
                      password := pw; confirmPassword := c |}) as Hvalue
      by (unfold record; by rewrite UserSchema_object_value).
    split; [|done]. unfold record. rewrite validate_object.
    unfold email_issues, githubUrl_issues, yearsOfExperience_issues, password_issues,
      confirmPassword_issues.
    change (entry _ "email") with (JsStr e).
    change (entry _ "githubUrl") with (JsStr g).
    change (entry _ "yearsOfExperience") with (JsNum (Finite q)).
    change (entry _ "password") with (JsStr pw).
    change (entry _ "confirmPassword") with (JsStr c).
    assert ((email_schema ["email"] (JsStr e)).2 = []) as ->.
    { unfold email_schema. rewrite z_string_issues. cbn [flat_map run_string_check].
      by rewrite He. }
    assert ((githubUrl_schema ["githubUrl"] (JsStr g)).2 = []) as ->.
    { apply fmap_nil_inv with (f := Zod.message).
      by rewrite githubUrl_messages_of, Hg, Hgh. }
    assert ((yearsOfExperience_schema ["yearsOfExperience"] (JsNum (Finite q))).2 = [])
      as ->.
    { apply fmap_nil_inv with (f := Zod.message).
      by rewrite years_schema_messages, Hq1, Hq2. }
    assert ((password_schema ["password"] (JsStr pw)).2 = []) as ->.
    { apply fmap_nil_inv with (f := Zod.message).
      by rewrite password_messages_of, Hlen. }
    cbn [app]. unfold refinement_issues. unfold record in Hvalue. rewrite Hvalue.
    unfold confirmPassword_schema. by rewrite z_string_issues. }
  split; [|split; [|split]].
  - split.
    + intros Hin. apply custom_issue_origin in Hin; [|done].
      unfold refinement_issues in Hin.
      destruct (value_of (UserSchema_object [] input).1) as [data|] eqn:Hdata;
        [|by apply elem_of_nil in Hin].
      destruct input as [| | | | | |props]; try discriminate.
      exists data. split; [by apply well_typed_value|].
      destruct (String.eqb_spec (password data) (confirmPassword data)); [|done].
      by apply elem_of_nil in Hin.
    + intros (data & Htyped & Hne).
      destruct Htyped as (props & -> & Hrest).
      assert (well_typed (JsObj props) data) as Hv%well_typed_value by by exists props.
      rewrite refine_issues_eq. apply elem_of_app. right.
      unfold refinement_issues. rewrite Hv.
      apply String.eqb_neq in Hne. rewrite Hne. by left.
  - intros i Hi Hcode. apply custom_issue_origin in Hi; [|done].
    by apply refinement_issue in Hi as ->.
  - by destruct (Hrecord "Secret123" "Different" eq_refl) as [-> _].
  - destruct (Hrecord "Secret123" "Secret123" eq_refl) as [Hv Hd].
    by apply safeParse_data.
Qed.

End Rules.

(** ** The rules on concrete records *)

Section Examples.

#[local] Existing Instance demo_platform.

(** C2, as stated, fails: one and a half is not a whole number, yet the
    record that carries it passes validation, with no message on
    [yearsOfExperience]. *)
Lemma yearsOfExperience_fraction_counterexample :
  field_messages "yearsOfExperience"
    (record (JsStr "ada@example.com") (JsStr "https://github.com/ada")
            (JsNum (Finite (3 # 2))) (JsStr "Secret123") (JsStr "Secret123"))
  = []
  ∧ safeParse UserSchema
      (record (JsStr "ada@example.com") (JsStr "https://github.com/ada")
              (JsNum (Finite (3 # 2))) (JsStr "Secret123") (JsStr "Secret123"))
    = inl {| email := "ada@example.com"; githubUrl := "https://github.com/ada";
             yearsOfExperience := Finite (3 # 2);
             password := "Secret123"; confirmPassword := "Secret123" |}
  ∧ ¬ integer_in_range (Finite (3 # 2)).
Proof.
  split; [vm_compute; reflexivity|]. split; [vm_compute; reflexivity|].
  intros (q & z & [= <-] & Hq & _). unfold Qeq in Hq. cbn in Hq. lia.
Qed.

(** C5, as stated, fails: in this record the password fails its own rule,
    and the equality check is evaluated all the same and reports the
    mismatch. *)
Lemma refinement_after_failed_rule_counterexample :
  validate (record (JsStr "ada@example.com") (JsStr "https://github.com/ada")
                   (JsNum (of_Z 5)) (JsStr "short") (JsStr "other"))
  = [ {| code := too_small; path := ["password"];
         Zod.message := "Password is too short" |};
      mismatch_issue ].
Proof. vm_compute. reflexivity. Qed.

(** The amended C5 at a record whose other fields are valid. *)
Lemma passwords_match_refinement_witness :
  validate (record (JsStr "ada@example.com") (JsStr "https://github.com/ada")
                   (JsNum (of_Z 5)) (JsStr "Secret123") (JsStr "Different"))
  = [mismatch_issue]
  ∧ safeParse UserSchema
      (record (JsStr "ada@example.com") (JsStr "https://github.com/ada")
              (JsNum (of_Z 5)) (JsStr "Secret123") (JsStr "Secret123"))
    = inl {| email := "ada@example.com"; githubUrl := "https://github.com/ada";
             yearsOfExperience := of_Z 5;
             password := "Secret123"; confirmPassword := "Secret123" |}.
Proof.
  assert (contains "https://github.com/ada" "github.com") as Hgh
    by (apply includes_spec; reflexivity).
  assert (in_bounds (of_Z 5)) as Hn
    by (exists (inject_Z 5); split; [reflexivity|]; split; unfold Qle; cbn; lia).
  destruct (@passwords_match_refinement demo_platform JsNull "ada@example.com"
              "https://github.com/ada" (of_Z 5) eq_refl eq_refl Hgh Hn)
    as (_ & _ & Hdiff & Hsame).
  split; [exact Hdiff|exact Hsame].
Defined.

(** C7 at an address without an [@]. *)
Lemma email_without_at_witness :
  field_messages "email" (JsObj [("email", JsStr "ada.example.com")])
  = ["Invalid email"].
Proof.
  apply (email_without_at [("email", JsStr "ada.example.com")] "ada.example.com"
           eq_refl).
  intros Hs%at_inside_spec. vm_compute in Hs. discriminate.
Defined.

End Examples.

(** ** Further rules of the schema *)

Import Observe.

Ltac issue_paths :=
  first [ done
        | intro; apply z_string_path
        | intro; apply z_number_path
        | intro; apply refinement_path ].

Section Acceptance.

Context `{Platform}.

Implicit Types (props : list (string * JsValue)) (v : JsValue) (data : FormData).

Lemma safeParse_inl v data :
  safeParse UserSchema v = inl data
  ↔ validate v = [] ∧ value_of (UserSchema_object [] v).1 = Some data.
Proof.
  split.
  - intros Hparse. assert (validate v = []) as Hvalid
      by (apply safeParse_success; eauto).
    split; [done|]. rewrite <- refine_value.
    unfold safeParse in Hparse.
    destruct (UserSchema [] v) as [[a|a|] issues]; cbn in *; congruence.
  - intros [Hvalid Hdata]. by apply safeParse_data.
Qed.

Lemma refinement_issues_nil data :
  refinement_issues (OK data) = [] ↔ password data = confirmPassword data.
Proof.
  unfold refinement_issues. cbn [value_of].
  destruct (String.eqb_spec (password data) (confirmPassword data)); split; done.
Qed.

Lemma refinement_issues_value (r : ParseReturnType FormData) data :
  value_of r = Some data → refinement_issues r = refinement_issues (OK data).
Proof. unfold refinement_issues. by intros ->. Qed.

(** The issues of a record whose five fields hold values of their types. *)
Lemma validate_well_typed props data :
  well_typed (JsObj props) data →
  validate (JsObj props)
  = (email_schema ["email"] (JsStr (email data))).2
    ++ (githubUrl_schema ["githubUrl"] (JsStr (githubUrl data))).2
    ++ (yearsOfExperience_schema ["yearsOfExperience"]
          (JsNum (yearsOfExperience data))).2
    ++ (password_schema ["password"] (JsStr (password data))).2
    ++ refinement_issues (OK data).
Proof.
  intros Htyped. pose proof Htyped as Hvalue%well_typed_value.
  destruct Htyped as (props' & [= <-] & He & Hg & Hy & _ & Hp & Hc).
  rewrite validate_object.
  unfold email_issues, githubUrl_issues, yearsOfExperience_issues, password_issues,
    confirmPassword_issues, entry.
  rewrite He, Hg, Hy, Hp, Hc. cbn [default from_option id].
  rewrite (refinement_issues_value _ _ Hvalue).
  unfold confirmPassword_schema. rewrite z_string_issues. reflexivity.
Qed.

(** X1: parsing succeeds with a record exactly when the five fields hold
    that record's values, the email matches the email pattern, the GitHub URL
    parses and contains ["github.com"], the years are a number from 1 to 10,
    the password has 8 to 20 code units, and the two passwords are equal. *)
Theorem safeParse_accepts v data :
  safeParse UserSchema v = inl data
  ↔ well_typed v data
    ∧ emailRegex_test (email data) = true
    ∧ URL_parses (githubUrl data) = true
    ∧ contains (githubUrl data) "github.com"
    ∧ in_bounds (yearsOfExperience data)
    ∧ (8 ≤ String.length (password data) ≤ 20)%nat
    ∧ password data = confirmPassword data.
Proof.
  rewrite safeParse_inl. split.
  - intros [Hvalid Hvalue].
    assert (well_typed v data) as Htyped.
    { destruct v as [| | | | | |props]; try discriminate. by apply well_typed_value. }
    split; [done|]. destruct Htyped as (props & -> & Hrest).
    assert (well_typed (JsObj props) data) as Htyped by by exists props.
    rewrite (validate_well_typed _ _ Htyped) in Hvalid.
    apply app_eq_nil in Hvalid as [Hemail Hvalid].
    apply app_eq_nil in Hvalid as [Hgithub Hvalid].
    apply app_eq_nil in Hvalid as [Hyears Hvalid].
    apply app_eq_nil in Hvalid as [Hpassword Hmatch].
    split; [|split; [|split; [|split; [|split]]]].
    + unfold email_schema in Hemail. rewrite z_string_issues in Hemail.
      cbn [flat_map run_string_check] in Hemail.
      by destruct (emailRegex_test (email data)).
    + apply (f_equal (fmap Zod.message)) in Hgithub.
      rewrite githubUrl_messages_of in Hgithub.
      by destruct (URL_parses (githubUrl data)).
    + apply (f_equal (fmap Zod.message)) in Hgithub.
      rewrite githubUrl_messages_of in Hgithub. apply includes_spec.
      by destruct (URL_parses (githubUrl data)),
        (includes (githubUrl data) "github.com").
    + apply (f_equal (fmap Zod.message)) in Hyears.
      rewrite years_schema_messages in Hyears.
      destruct (yearsOfExperience data) as [| | |q]; try discriminate.
      exists q. split; [done|]. rewrite <- !Qle_bool_iff.
      by destruct (Qle_bool 1 q), (Qle_bool q 10).
    + apply (f_equal (fmap Zod.message)) in Hpassword.
      rewrite password_messages_of in Hpassword.
      destruct (Nat.ltb_spec (String.length (password data)) 8),
        (Nat.ltb_spec 20 (String.length (password data))); try discriminate. lia.
    + by apply refinement_issues_nil.
  - intros (Htyped & He & Hg & Hgh%includes_spec & (q & Hq & Hq1%Qle_bool_iff
            & Hq2%Qle_bool_iff) & Hlen & Hmatch%refinement_issues_nil).
    pose proof Htyped as (props & -> & _).
    split; [|by apply well_typed_value].
    rewrite (validate_well_typed _ _ Htyped), Hmatch.
    assert ((email_schema ["email"] (JsStr (email data))).2 = []) as ->.
    { unfold email_schema. rewrite z_string_issues. cbn [flat_map run_string_check].
      by rewrite He. }
    assert ((githubUrl_schema ["githubUrl"] (JsStr (githubUrl data))).2 = []) as ->.
    { apply fmap_nil_inv with (f := Zod.message).
      by rewrite githubUrl_messages_of, Hg, Hgh. }
    assert ((yearsOfExperience_schema ["yearsOfExperience"]
               (JsNum (yearsOfExperience data))).2 = []) as ->.
    { apply fmap_nil_inv with (f := Zod.message).
      by rewrite years_schema_messages, Hq, Hq1, Hq2. }
    assert ((password_schema ["password"] (JsStr (password data))).2 = []) as ->.
    { apply fmap_nil_inv with (f := Zod.message). rewrite password_messages_of.
      destruct (Nat.ltb_spec (String.length (password data)) 8),
        (Nat.ltb_spec 20 (String.length (password data))); try lia. done. }
    reflexivity.
Qed.

(** X2: the schema reads the five keys and nothing else: two objects that
    agree on them get the same result, issues and value alike, so unknown
    keys and the order of the keys play no part. *)
Theorem UserSchema_reads_five_keys props props' :
  (∀ key, key ∈ Object_keys fieldErrorMapping → own props key = own props' key) →
  UserSchema [] (JsObj props) = UserSchema [] (JsObj props').
Proof.
  intros Hkeys.
  assert (∀ key, key ∈ Object_keys fieldErrorMapping →
            entry props key = entry props' key) as Hentry
    by (intros key Hkey; unfold entry; by rewrite (Hkeys key Hkey)).
  unfold UserSchema, refine, UserSchema_object, z_object.
  rewrite !shape_key_eq.
  rewrite (Hentry "email"), (Hentry "githubUrl"), (Hentry "yearsOfExperience"),
    (Hentry "password"), (Hentry "confirmPassword");
    [reflexivity|apply list_elem_of_In; cbn; tauto ..].
Qed.

Lemma validate_not_an_object v :
  (∀ props, v ≠ JsObj props) →
  validate v
  = [ {| code := invalid_type; path := [];
         Zod.message :=
           match v with
           | JsUndefined => "Required"
           | _ => "Expected object, received " +:+ type_name (getParsedType v)
           end |} ].
Proof.
  intros Hv. destruct v as [| | |[| | |q]| | |props]; try reflexivity.
  by destruct (Hv props).
Qed.

(** X3: an input that is not an object fails with one issue, of code
    [invalid_type], at the root: ["Required"] for [undefined], and the
    expected and received types otherwise. *)
Theorem UserSchema_not_an_object v :
  (∀ props, v ≠ JsObj props) →
  validate v
  = [ {| code := invalid_type; path := [];
         Zod.message :=
           match v with
           | JsUndefined => "Required"
           | _ => "Expected object, received " +:+ type_name (getParsedType v)
           end |} ]
  ∧ (∀ data, safeParse UserSchema v ≠ inl data).
Proof.
  intros Hv. pose proof (validate_not_an_object v Hv) as Hissues.
  split; [done|]. intros data [Hvalid _]%safeParse_inl. congruence.
Qed.

(** X4: what validation reports on [email], [githubUrl],
    [yearsOfExperience] or [password] depends on the value of that field
    alone. *)
Theorem field_messages_independent key props props' :
  key ∈ ["email"; "githubUrl"; "yearsOfExperience"; "password"] →
  own props key = own props' key →
  field_messages key (JsObj props) = field_messages key (JsObj props').
Proof.
  intros Hkey Hown. apply list_elem_of_In in Hkey. cbn in Hkey.
  destruct Hkey as [<-|[<-|[<-|[<-|[]]]]].
  - rewrite !field_messages_email. unfold email_issues, entry. by rewrite Hown.
  - rewrite !field_messages_githubUrl. unfold githubUrl_issues, entry. by rewrite Hown.
  - rewrite !field_messages_yearsOfExperience.
    unfold yearsOfExperience_issues, entry. by rewrite Hown.
  - rewrite !field_messages_password. unfold password_issues, entry. by rewrite Hown.
Qed.

Lemma field_messages_confirmPassword props :
  field_messages "confirmPassword" (JsObj props)
  = Zod.message
    <$> (confirmPassword_issues props
         ++ refinement_issues (UserSchema_object [] (JsObj props)).1).
Proof.
  unfold field_messages. rewrite validate_object, !messages_at_app.
  rewrite (messages_at_other "confirmPassword" ["email"] (email_issues props))
    by issue_paths.
  rewrite (messages_at_other "confirmPassword" ["githubUrl"] (githubUrl_issues props))
    by issue_paths.
  rewrite (messages_at_other "confirmPassword" ["yearsOfExperience"]
             (yearsOfExperience_issues props)) by issue_paths.
  rewrite (messages_at_other "confirmPassword" ["password"] (password_issues props))
    by issue_paths.
  rewrite !messages_at_same by issue_paths.
  by rewrite fmap_app.
Qed.

(** When [confirmPassword] is not a string the object is aborted and the
    refinement adds nothing. *)
Lemma refinement_skipped props :
  as_string (entry props "confirmPassword") = None →
  refinement_issues (UserSchema_object [] (JsObj props)).1 = [].
Proof.
  intros Hc. unfold refinement_issues. rewrite UserSchema_object_value, Hc.
  destruct (as_string (entry props "email")), (as_string (entry props "githubUrl")),
    (as_number (entry props "yearsOfExperience")), (as_string (entry props "password"));
    reflexivity.
Qed.

(** X5: on a string [githubUrl] both checks run. A string that does not
    parse as a URL gets ["Invalid url"], followed by ["Invalid GitHub URL"]
    when it lacks ["github.com"] as well. *)
Theorem githubUrl_not_a_url props g :
  own props "githubUrl" = Some (JsStr g) →
  URL_parses g = false →
  (contains g "github.com" → field_messages "githubUrl" (JsObj props) = ["Invalid url"])
  ∧ (¬ contains g "github.com" →
       field_messages "githubUrl" (JsObj props) = ["Invalid url"; "Invalid GitHub URL"]).
Proof.
  intros Hown Hu. rewrite field_messages_githubUrl.
  unfold githubUrl_issues, entry. rewrite Hown. cbn [default from_option id].
  rewrite githubUrl_messages_of, Hu. setoid_rewrite <- includes_spec.
  destruct (includes g "github.com"); split; done.
Qed.

(** X6: a string field that is missing fails with ["Required"], and one
    that holds a value of another type with the expected and the received
    type; nothing else is reported on it. *)
Theorem string_field_wrong_type key props :
  key ∈ ["email"; "githubUrl"; "password"; "confirmPassword"] →
  (own props key = None → field_messages key (JsObj props) = ["Required"])
  ∧ (∀ v, own props key = Some v → v ≠ JsUndefined → as_string v = None →
       field_messages key (JsObj props) = [expected_string v]).
Proof.
  intros Hkey. apply list_elem_of_In in Hkey. cbn in Hkey.
  destruct Hkey as [<-|[<-|[<-|[<-|[]]]]].
  - rewrite field_messages_email. unfold email_issues, entry.
    split; [by intros ->|]. intros v -> Hu Hs. by destruct v as [| | |[]| | |].
  - rewrite field_messages_githubUrl. unfold githubUrl_issues, entry.
    split; [by intros ->|]. intros v -> Hu Hs. by destruct v as [| | |[]| | |].
  - rewrite field_messages_password. unfold password_issues, entry.
    split; [by intros ->|]. intros v -> Hu Hs. by destruct v as [| | |[]| | |].
  - rewrite field_messages_confirmPassword. split.
    + intros Hown. rewrite refinement_skipped by (unfold entry; by rewrite Hown).
      unfold confirmPassword_issues, entry. by rewrite Hown.
    + intros v Hown Hu Hs.
      rewrite refinement_skipped by (unfold entry; by rewrite Hown).
      unfold confirmPassword_issues, entry. rewrite Hown.
      by destruct v as [| | |[]| | |].
Qed.

(** X7: a number below 1 gets the message of the lower bound and a number
    above 10 that of the upper bound, the infinities included. *)
Theorem yearsOfExperience_out_of_range props n :
  own props "yearsOfExperience" = Some (JsNum n) →
  ((n = NegInf ∨ ∃ q, n = Finite q ∧ (q < 1)%Q) →
     field_messages "yearsOfExperience" (JsObj props)
     = ["Number must be greater than or equal to 1"])
  ∧ ((n = PosInf ∨ ∃ q, n = Finite q ∧ (10 < q)%Q) →
       field_messages "yearsOfExperience" (JsObj props)
       = ["Number must be less than or equal to 10"]).
Proof.
  intros Hown. rewrite field_messages_yearsOfExperience.
  unfold yearsOfExperience_issues, entry. rewrite Hown. cbn [default from_option id].
  rewrite years_schema_messages. split.
  - intros [->|(q & -> & Hq)]; [done|].
    assert (Qle_bool 1 q = false) as ->.
    { apply not_true_is_false. intros Hle%Qle_bool_iff. by apply Qlt_not_le in Hq. }
    assert (Qle_bool q 10 = true) as ->; [|done].
    apply Qle_bool_iff, Qlt_le_weak, (Qlt_trans _ 1); [done|reflexivity].
  - intros [->|(q & -> & Hq)]; [done|].
    assert (Qle_bool q 10 = false) as ->.
    { apply not_true_is_false. intros Hle%Qle_bool_iff. by apply Qlt_not_le in Hq. }
    assert (Qle_bool 1 q = true) as ->; [|done].
    apply Qle_bool_iff, Qlt_le_weak, (Qlt_trans _ 10); [reflexivity|done].
Qed.

(** *** How many messages a field can get *)

Lemma z_string_length checks p v :
  (length (z_string checks p v).2 ≤ Nat.max 1 (length checks))%nat.
Proof.
  destruct v; cbn [z_string snd length]; try lia.
  rewrite after_checks_issues.
  assert (length (flat_map (run_string_check p s) checks) ≤ length checks)%nat;
    [|lia].
  induction checks as [|check checks IH]; cbn [flat_map length]; [lia|].
  rewrite length_app.
  assert (length (run_string_check p s check) ≤ 1)%nat
    by (destruct check; cbn; case_match; cbn; lia).
  lia.
Qed.

Lemma yearsOfExperience_issues_length props :
  (length (yearsOfExperience_issues props) ≤ 1)%nat.
Proof.
  unfold yearsOfExperience_issues.
  rewrite <- (length_fmap Zod.message), years_schema_messages.
  destruct (entry props "yearsOfExperience") as [| | |[| | |q]| | |]; cbn; try lia.
  destruct (Qle_bool 1 q) eqn:H1, (Qle_bool q 10) eqn:H2; cbn; try lia.
  exfalso. apply not_true_iff_false in H1, H2.
  rewrite Qle_bool_iff in H1, H2.
  apply Qnot_le_lt in H1. apply H2, Qlt_le_weak, (Qlt_trans _ 1); [done|reflexivity].
Qed.

Lemma password_issues_length props : (length (password_issues props) ≤ 1)%nat.
Proof.
  unfold password_issues.
  destruct (entry props "password") as [| | | |s| |] eqn:Hv;
    try (cbn; lia).
  rewrite <- (length_fmap Zod.message), password_messages_of.
  destruct (Nat.ltb_spec (String.length s) 8), (Nat.ltb_spec 20 (String.length s));
    cbn; lia.
Qed.

Lemma confirmPassword_issues_length props :
  (length (confirmPassword_issues props)
   + length (refinement_issues (UserSchema_object [] (JsObj props)).1) ≤ 1)%nat.
Proof.
  destruct (as_string (entry props "confirmPassword")) as [c|] eqn:Hc.
  - unfold confirmPassword_issues, confirmPassword_schema.
    destruct (entry props "confirmPassword"); try discriminate.
    rewrite z_string_issues. cbn [flat_map length]. unfold refinement_issues.
    destruct (value_of _); [|cbn; lia]. destruct (String.eqb _ _); cbn; lia.
  - rewrite refinement_skipped by done.
    pose proof (z_string_length [] ["confirmPassword"] (entry props "confirmPassword")).
    unfold confirmPassword_issues, confirmPassword_schema. cbn in *. lia.
Qed.

Lemma messages_at_bound key k (l : list ZodIssue) :
  (∀ i, i ∈ l → path i = [k]) →
  (length (messages_at key l) ≤ length l)%nat
  ∧ (key ≠ k → length (messages_at key l) = 0%nat).
Proof.
  intros Hl. split.
  - unfold messages_at. rewrite length_fmap. apply length_filter.
  - intros Hne. rewrite (messages_at_other key [k] l); [done| |done]. congruence.
Qed.

(** X8: validation never reports more than one message on a field, except
    on [githubUrl], which can get two; this holds of every input and of every
    key. *)
Theorem messages_per_field v key :
  (key ≠ "githubUrl" → (length (field_messages key v) ≤ 1)%nat)
  ∧ (length (field_messages key v) ≤ 2)%nat.
Proof.
  destruct v as [| | | | | |props];
    try (unfold field_messages; rewrite validate_not_an_object by done;
         rewrite (messages_at_other key []); [cbn; split; [intros _|]; lia|done|];
         by intros i ->%list_elem_of_singleton).
  unfold field_messages. rewrite validate_object, !messages_at_app, !length_app.
  destruct (messages_at_bound key "email" (email_issues props)) as [He1 He0];
    [issue_paths|].
  destruct (messages_at_bound key "githubUrl" (githubUrl_issues props)) as [Hg1 Hg0];
    [issue_paths|].
  destruct (messages_at_bound key "yearsOfExperience" (yearsOfExperience_issues props))
    as [Hy1 Hy0]; [issue_paths|].
  destruct (messages_at_bound key "password" (password_issues props)) as [Hp1 Hp0];
    [issue_paths|].
  destruct (messages_at_bound key "confirmPassword" (confirmPassword_issues props))
    as [Hc1 Hc0]; [issue_paths|].
  destruct (messages_at_bound key "confirmPassword"
              (refinement_issues (UserSchema_object [] (JsObj props)).1))
    as [Hr1 Hr0]; [issue_paths|].
  pose proof (z_string_length [Zod.email None] ["email"] (entry props "email")) as Le.
  pose proof (z_string_length
                [url None; includes_check "github.com" (Some "Invalid GitHub URL")]
                ["githubUrl"] (entry props "githubUrl")) as Lg.
  pose proof (yearsOfExperience_issues_length props) as Ly.
  pose proof (password_issues_length props) as Lp.
  pose proof (confirmPassword_issues_length props) as Lc.
  change (length (githubUrl_issues props) ≤ 2)%nat in Lg.
  change (length (email_issues props) ≤ 1)%nat in Le.
  destruct (decide (key = "email")) as [->|Hne];
    [rewrite Hg0, Hy0, Hp0, Hc0, Hr0 by done; split; [intros _|]; lia|].
  destruct (decide (key = "githubUrl")) as [->|Hng];
    [rewrite He0, Hy0, Hp0, Hc0, Hr0 by done; split; [done|]; lia|].
  destruct (decide (key = "yearsOfExperience")) as [->|Hny];
    [rewrite He0, Hg0, Hp0, Hc0, Hr0 by done; split; [intros _|]; lia|].
  destruct (decide (key = "password")) as [->|Hnp];
    [rewrite He0, Hg0, Hy0, Hc0, Hr0 by done; split; [intros _|]; lia|].
  rewrite He0, Hg0, Hy0, Hp0 by done. split; [intros _|]; lia.
Qed.

End Acceptance.

(** ** The email pattern *)

Section EmailPattern.

Implicit Types (s : string) (r : regex) (c : ascii).

Lemma chars_app s1 s2 :
  list_ascii_of_string (s1 +:+ s2) = list_ascii_of_string s1 ++ list_ascii_of_string s2.
Proof. induction s1 as [|c s1 IH]; [done|]. rewrite app_cons. cbn. by rewrite IH. Qed.

(** The matcher accepts every word of the language. *)
Lemma deriv_complete a r w : lang r w → ∀ s, w = String a s → lang (deriv a r) s.
Proof.
  induction 1 as [|c|p c Hp|r1 r2 s1 s2 H1 IH1 H2 IH2|r1 r2 w H1 IH1|r1 r2 w H2 IH2
                  |r|r s1 s2 H1 IH1 H2 IH2]; intros s Hw; cbn [deriv].
  - discriminate.
  - injection Hw as -> <-. rewrite Ascii.eqb_refl. constructor.
  - injection Hw as -> <-. rewrite Hp. constructor.
  - destruct s1 as [|b s1].
    + rewrite app_empty_l in Hw. apply lang_alt_r.
      rewrite (lang_empty_nullable _ _ H1 eq_refl). by apply IH2.
    + rewrite app_cons in Hw. injection Hw as -> <-.
      apply lang_alt_l. constructor; [by apply IH1|done].
  - apply lang_alt_l. by apply IH1.
  - apply lang_alt_r. by apply IH2.
  - discriminate.
  - destruct s1 as [|b s1].
    + rewrite app_empty_l in Hw. by apply IH2.
    + rewrite app_cons in Hw. injection Hw as -> <-.
      constructor; [by apply IH1|done].
Qed.

Lemma matches_complete r s : lang r s → matches r s = true.
Proof.
  revert r. induction s as [|a s IH]; intros r Hr; cbn.
  - by eapply lang_empty_nullable.
  - apply IH. by eapply deriv_complete.
Qed.

Lemma lang_alphabet r w :
  lang r w → ∀ c, c ∈ list_ascii_of_string w → alphabet r c = true.
Proof.
  induction 1 as [|a|p a Hp|r1 r2 s1 s2 H1 IH1 H2 IH2|r1 r2 w H1 IH1|r1 r2 w H2 IH2
                  |r|r s1 s2 H1 IH1 H2 IH2]; intros c Hc; cbn [alphabet].
  - by apply elem_of_nil in Hc.
  - apply list_elem_of_singleton in Hc as ->. apply Ascii.eqb_refl.
  - by apply list_elem_of_singleton in Hc as ->.
  - rewrite chars_app in Hc. apply elem_of_app in Hc as [Hc|Hc].
    + by rewrite IH1.
    + rewrite IH2 by done. apply orb_true_r.
  - by rewrite IH1.
  - rewrite IH2 by done. apply orb_true_r.
  - by apply elem_of_nil in Hc.
  - rewrite chars_app in Hc. apply elem_of_app in Hc as [Hc|Hc].
    + by apply IH1.
    + exact (IH2 c Hc).
Qed.

Lemma lang_star_class (p : ascii → bool) s :
  (∀ c, c ∈ list_ascii_of_string s → p c = true) → lang (Star (Class p)) s.
Proof.
  induction s as [|c s IH]; intros Hs; [constructor|].
  change (String c s) with (String c "" +:+ s). constructor.
  - constructor. apply Hs. by left.
  - apply IH. intros d Hd. apply Hs. by right.
Qed.

Lemma lang_star_any s : lang (Star Any) s.
Proof. by apply lang_star_class. Qed.

(** No word of the email pattern holds a line terminator. *)
Lemma emailRegex_alphabet c :
  alphabet emailRegex_body c = true → not_terminator c = true.
Proof. destruct c as [[] [] [] [] [] [] [] []]; vm_compute; done. Qed.

(** The words of a starred class are made of the class. *)
Lemma star_class_letters s : lang (Star (ClassI letter)) s → letters s = true.
Proof.
  remember (Star (ClassI letter)) as r eqn:Hr. induction 1; try discriminate.
  - reflexivity.
  - injection Hr as ->. specialize (IHlang2 eq_refl).
    match goal with Hc : lang (ClassI letter) _ |- _ => inversion Hc; subst end.
    rewrite app_cons, app_empty_l. cbn [letters]. by rewrite IHlang2, andb_true_r.
Qed.

(** A run of labels, when not empty, ends with a dot. *)
Lemma star_labels_end r s :
  (∀ w, lang r w → ∃ d, w = d +:+ ".") →
  lang (Star r) s → s = "" ∨ ∃ d, s = d +:+ ".".
Proof.
  intros Hr. remember (Star r) as r' eqn:Hr'. induction 1; try discriminate.
  - by left.
  - injection Hr' as ->. right.
    match goal with Hw : lang r ?w |- _ => apply Hr in Hw as [d1 ->] end.
    destruct (IHlang2 eq_refl) as [->|[d2 ->]].
    + exists d1. by rewrite app_empty_r.
    + exists ((d1 +:+ ".") +:+ d2). by rewrite !string_app_assoc.
Qed.

Lemma lang_seq_inv r1 r2 s :
  lang (Seq r1 r2) s → ∃ s1 s2, s = s1 +:+ s2 ∧ lang r1 s1 ∧ lang r2 s2.
Proof. inversion 1; subst; eauto. Qed.

Lemma lang_class_inv (p : ascii → bool) s :
  lang (Class p) s → ∃ c, s = String c "" ∧ p c = true.
Proof. inversion 1; subst; eauto. Qed.

Lemma lang_chr_inv c s : lang (Chr c) s → s = String c "".
Proof. by inversion 1. Qed.

(** What the email pattern accepts: a local part, an [@], a domain, a dot
    and at least two letters. *)
Lemma emailRegex_shape e :
  emailRegex_test e = true →
  ∃ local domain tld,
    e = local +:+ "@" +:+ domain +:+ "." +:+ tld
    ∧ local ≠ "" ∧ domain ≠ ""
    ∧ (2 ≤ String.length tld)%nat ∧ letters tld = true.
Proof.
  unfold emailRegex_test. intros [_ Hbody%matches_sound]%andb_true_iff.
  apply lang_seq_inv in Hbody as (s1 & t1 & -> & _ & Ht1).
  apply lang_seq_inv in Ht1 as (s2 & t2 & -> & Hlast & Ht2).
  apply lang_seq_inv in Ht2 as (s3 & t3 & -> & ->%lang_chr_inv & Ht3).
  apply lang_seq_inv in Ht3 as (s4 & s5 & -> & Hlabels & Htld).
  apply lang_class_inv in Hlast as (c & -> & _).
  (* the domain *)
  assert (∀ w, lang (Seq (ClassI alnum) (Seq (Star (ClassI alnum_dash)) (Chr "."))) w →
            ∃ d, w = String d.1 d.2 +:+ ".") as Hlabel.
  { intros w (w1 & w2 & -> & (a & -> & _)%lang_class_inv & Hw2)%lang_seq_inv.
    apply lang_seq_inv in Hw2 as (x & y & -> & _ & ->%lang_chr_inv).
    by exists (a, x). }
  apply lang_seq_inv in Hlabels as (w1 & w2 & -> & [[a x] ->]%Hlabel & Hrest).
  cbn [fst snd] in *.
  assert (∃ d, (String a x +:+ ".") +:+ w2 = String a d +:+ ".") as [d Hd].
  { apply star_labels_end in Hrest as [->|[d2 ->]].
    - exists x. by rewrite app_empty_r.
    - exists (x +:+ "." +:+ d2). by rewrite !app_cons, !string_app_assoc.
    - intros w [[a' x'] ->]%Hlabel. by eexists. }
  rewrite Hd.
  (* the letters at the end *)
  apply lang_seq_inv in Htld as (u1 & u' & -> & (c1 & -> & Hc1)%lang_class_inv & Hu').
  apply lang_seq_inv in Hu' as (u2 & u3 & -> & (c2 & -> & Hc2)%lang_class_inv & Hu3).
  apply star_class_letters in Hu3.
  exists (s1 +:+ String c ""), (String a d), (String c1 (String c2 u3)).
  split; [|split; [|split; [|split]]].
  - by rewrite !string_app_assoc.
  - intros [_ ?]%app_eq_empty. discriminate.
  - discriminate.
  - cbn. lia.
  - cbn [letters]. by rewrite Hc1, Hc2, Hu3.
Qed.

(** The pattern refuses a leading dot and two dots in a row. *)
Lemma emailRegex_stray_dots e :
  (∃ rest, e = "." +:+ rest) ∨ contains e ".." → emailRegex_test e = false.
Proof.
  intros [[rest ->]|(a & b & ->)]; unfold emailRegex_test.
  - assert (matches_prefix (Chr ".") ("." +:+ rest) = true) as ->; [|done].
    apply matches_complete. constructor; [constructor|apply lang_star_any].
  - destruct (matches emailRegex_body (a +:+ ".." +:+ b)) eqn:Hbody;
      [|apply andb_false_r].
    assert (matches_prefix (Seq (Star Dot) (Seq (Chr ".") (Chr ".")))
              (a +:+ ".." +:+ b) = true) as ->; [|by rewrite andb_false_r].
    apply matches_complete.
    replace (a +:+ ".." +:+ b) with ((a +:+ "." +:+ ".") +:+ b)
      by (by rewrite !string_app_assoc).
    constructor; [|apply lang_star_any].
    constructor; [|constructor; constructor].
    apply lang_star_class. intros c Hc.
    apply emailRegex_alphabet.
    apply (lang_alphabet _ _ (matches_sound _ _ Hbody)).
    rewrite chars_app. apply elem_of_app. by left.
Qed.

End EmailPattern.

Section EmailRules.

Context `{Platform}.

Implicit Types (props : list (string * JsValue)).

Lemma email_messages_of p e :
  Zod.message <$> (email_schema p (JsStr e)).2
  = if emailRegex_test e then [] else ["Invalid email"].
Proof.
  unfold email_schema. rewrite z_string_issues. cbn [flat_map run_string_check].
  by destruct (emailRegex_test e).
Qed.

(** X9: an email that validation accepts is made of a non-empty local part,
    an [@], a non-empty domain, a dot, and at least two letters, and of
    nothing else. *)
Theorem accepted_email_shape props e :
  own props "email" = Some (JsStr e) →
  field_messages "email" (JsObj props) = [] →
  ∃ local domain tld,
    e = local +:+ "@" +:+ domain +:+ "." +:+ tld
    ∧ local ≠ "" ∧ domain ≠ ""
    ∧ (2 ≤ String.length tld)%nat ∧ letters tld = true.
Proof.
  intros Hown. rewrite field_messages_email. unfold email_issues, entry.
  rewrite Hown. cbn [default from_option id]. rewrite email_messages_of.
  destruct (emailRegex_test e) eqn:He; [|discriminate].
  intros _. by apply emailRegex_shape.
Qed.

(** X10: an email that starts with a dot, or that has two dots in a row
    anywhere, fails with the email message. *)
Theorem email_stray_dots props e :
  own props "email" = Some (JsStr e) →
  (∃ rest, e = "." +:+ rest) ∨ contains e ".." →
  field_messages "email" (JsObj props) = ["Invalid email"].
Proof.
  intros Hown Hdots%emailRegex_stray_dots. rewrite field_messages_email.
  unfold email_issues, entry. rewrite Hown. cbn [default from_option id].
  by rewrite email_messages_of, Hdots.
Qed.

End EmailRules.

(** ** Further behaviour of the submission handler *)

Section Responses.

Implicit Types (st : FormState) (data : JsValue) (errs : list (string * JsValue)).

Lemma get_normal v key : v ≠ JsNull → v ≠ JsUndefined → ∃ w, get v key = Normal w.
Proof. destruct v; try done; intros _ _; by eexists. Qed.

Lemma find_normal (v : JsValue) (l : list string) :
  v ≠ JsNull → v ≠ JsUndefined →
  ∃ r, find (λ field, w ← get v field; Normal (truthy w)) l = Normal r.
Proof.
  intros Hnull Hundef. induction l as [|x l [r IH]]; [by eexists|].
  cbn [find]. destruct (get_normal v x Hnull Hundef) as [w ->].
  cbn [mbind Completion_bind]. destruct (truthy w); by eexists.
Qed.

Lemma find_some_true (callback : string → Completion bool) (l : list string) x :
  find callback l = Normal (Some x) → callback x = Normal true.
Proof.
  induction l as [|y l IH]; [discriminate|]. cbn [find].
  destruct (callback y) as [[]|] eqn:Hy; cbn [mbind Completion_bind];
    [by intros [= <-]|done|discriminate].
Qed.

(** The [try] block throws only when it reads a property of [null] or
    [undefined]. *)
Lemma onSubmit_try_normal data st e :
  destructure_errors data = Normal e → e ≠ JsNull →
  ∃ st', onSubmit_try data st = Normal st'.
Proof.
  intros He Hnull.
  assert (e ≠ JsUndefined) as Hundef.
  { unfold destructure_errors in He. destruct (get data "errors") as [[]|];
      cbn in He; by simplify_eq. }
  unfold onSubmit_try. rewrite He. cbn [mbind Completion_bind].
  destruct (find_normal e (Object_keys fieldErrorMapping) Hnull Hundef) as [r ->].
  cbn [mbind Completion_bind]. destruct r as [field|]; [|by eexists].
  destruct (truthy (JsStr field)); [|by eexists].
  destruct (get_normal e field Hnull Hundef) as [w ->]. cbn [mbind Completion_bind].
  destruct (mapping_get fieldErrorMapping field); by eexists.
Qed.

Lemma alert_shown st : alerts (alert "Submitting form failed!" st) ≠ alerts st.
Proof.
  cbn. intros Heq. apply (f_equal length) in Heq. rewrite length_app in Heq.
  cbn in Heq. lia.
Qed.

(** X11: the handler shows the alert exactly when the request is rejected,
    when the body is [null] or [undefined], or when the body's [errors]
    property is [null]: the default [{}] replaces a missing [errors], not a
    [null] one. *)
Theorem onSubmit_alert_iff result st :
  alerts (onSubmit result st) ≠ alerts st
  ↔ result = Rejected
    ∨ result = Resolved JsNull
    ∨ result = Resolved JsUndefined
    ∨ ∃ props, result = Resolved (JsObj props) ∧ own props "errors" = Some JsNull.
Proof.
  split.
  - intros Halert. destruct result as [|data]; [by left|]. right.
    assert (∀ e, destructure_errors data = Normal e → e = JsNull) as Hnull.
    { intros e He.
      assert (e = JsNull ∨ e ≠ JsNull) as [|Hne]
        by (destruct e; (by left) || (by right)); [done|].
      destruct (onSubmit_try_normal data st e He Hne) as [st' Htry].
      exfalso. apply Halert. unfold onSubmit. rewrite Htry.
      by apply onSubmit_try_alerts in Htry. }
    destruct data as [| | | | | |props]; try (by specialize (Hnull _ eq_refl)); auto.
    right. right. exists props. split; [done|].
    unfold destructure_errors in Hnull. cbn in Hnull.
    destruct (own props "errors") as [[]|]; by specialize (Hnull _ eq_refl).
  - intros [->|[->|[->|(props & -> & Hown)]]]; try apply alert_shown.
    unfold onSubmit, onSubmit_try, destructure_errors. cbn. rewrite Hown. cbn.
    apply alert_shown.
Qed.

Lemma find_all_undefined (v : JsValue) (l : list string) :
  (∀ field, get v field = Normal JsUndefined) →
  find (λ field, w ← get v field; Normal (truthy w)) l = Normal None.
Proof.
  intros Hv. induction l as [|x l IH]; [done|]. cbn [find]. by rewrite Hv.
Qed.

(** X12: a response whose [errors] is neither an object nor [null], be it
    missing, a string, a number, a boolean or an array, changes nothing: no
    field error is set and no alert is shown. *)
Theorem onSubmit_errors_not_an_object data e st :
  get data "errors" = Normal e →
  e ≠ JsNull →
  (∀ errs, e ≠ JsObj errs) →
  onSubmit (Resolved data) st = st.
Proof.
  intros Hget Hnull Hobj. unfold onSubmit, onSubmit_try, destructure_errors.
  rewrite Hget. cbn [mbind Completion_bind].
  rewrite find_all_undefined; [done|].
  intros field. destruct e as [| | | | | |errs]; try done. by destruct (Hobj errs).
Qed.

(** What the [try] block leaves behind when it completes. *)
Lemma onSubmit_try_result data st st' :
  onSubmit_try data st = Normal st' →
  st' = st
  ∨ ∃ name msg,
      truthy msg = true
      ∧ st' = setError name {| type := "server"; Form.message := msg |} st.
Proof.
  unfold onSubmit_try.
  destruct (destructure_errors data) as [e|]; cbn [mbind Completion_bind];
    [|discriminate].
  destruct (find _ _) as [[field|]|] eqn:Hfind; cbn [mbind Completion_bind];
    [| |discriminate]; [|intros [= <-]; by left].
  destruct (truthy (JsStr field)); [|intros [= <-]; by left].
  apply find_some_true in Hfind.
  destruct (get e field) as [msg|]; cbn [mbind Completion_bind] in *; [|discriminate].
  injection Hfind as Hmsg.
  destruct (mapping_get fieldErrorMapping field) as [name|]; intros [= <-];
    [right; by exists name, msg|by left].
Qed.

(** X13: whatever the outcome of the request, the handler changes the error
    of at most one field, and an error it sets has type ["server"] and a
    truthy message. *)
Theorem onSubmit_sets_at_most_one result st :
  ∃ name,
    (∀ other, other ≠ name →
       errors (onSubmit result st) !! other = errors st !! other)
    ∧ (errors (onSubmit result st) !! name = errors st !! name
       ∨ ∃ msg, truthy msg = true
                ∧ errors (onSubmit result st) !! name
                  = Some {| type := "server"; Form.message := msg |}).
Proof.
  destruct result as [|data]; [exists F_email; by auto|]. unfold onSubmit.
  destruct (onSubmit_try data st) as [st'|] eqn:Htry; [|exists F_email; by auto].
  apply onSubmit_try_result in Htry as [->|(name & msg & Hmsg & ->)];
    [exists F_email; by auto|].
  exists name. cbn [setError errors]. split.
  - intros other Hne. by rewrite lookup_insert_ne.
  - right. exists msg. by rewrite lookup_insert_eq.
Qed.

(** X14: of a response the handler reads the entries of [errors] for the
    five field names and nothing else: two bodies whose [errors] objects
    agree on them lead to the same state, whatever else the bodies hold and
    in whatever order the server lists the keys. *)
Theorem onSubmit_reads_five_entries data data' errs errs' st :
  get data "errors" = Normal (JsObj errs) →
  get data' "errors" = Normal (JsObj errs') →
  (∀ f, f ∈ Object_keys fieldErrorMapping → own errs f = own errs' f) →
  onSubmit (Resolved data) st = onSubmit (Resolved data') st.
Proof.
  intros Hget Hget' Hkeys. unfold onSubmit.
  rewrite (onSubmit_try_object _ _ _ Hget), (onSubmit_try_object _ _ _ Hget').
  assert (∀ f, f ∈ Object_keys fieldErrorMapping → entry errs f = entry errs' f)
    as Hentry by (intros f Hf; unfold entry; by rewrite (Hkeys f Hf)).
  assert (List.find (λ f, truthy (entry errs f)) (Object_keys fieldErrorMapping)
          = List.find (λ f, truthy (entry errs' f)) (Object_keys fieldErrorMapping))
    as <-.
  { cbn. rewrite !(Hentry _) by (apply list_elem_of_In; cbn; tauto). done. }
  destruct (List.find _ _) as [f|] eqn:Hf; [|done].
  apply List.find_some in Hf as [Hin _]. apply list_elem_of_In in Hin.
  unfold server_error. by rewrite (Hentry f Hin).
Qed.

End Responses.

(** ** What the form shows *)

Section Rendering.

Implicit Types (st : FormState) (errs : list (string * JsValue)).

Lemma Form_spans st :
  spans (Components.Form st)
  = omap (λ name, Form.message <$> errors st !! name) field_order.
Proof.
  unfold Components.Form, Components.Form_fields, field_order, fieldErrorMapping.
  cbn [fmap list_fmap snd omap list_omap].
  generalize (errors st !! F_email) (errors st !! F_githubUrl)
    (errors st !! F_yearsOfExperience) (errors st !! F_password)
    (errors st !! F_confirmPassword).
  by intros [] [] [] [] [].
Qed.

(** X15: the form renders the five inputs in the order in which the
    handler looks for a server error, and its error lines are, in that same
    order, the messages of the fields that have an error: one line for each
    such field and none for the others. *)
Theorem Form_error_lines st :
  inputs (Components.Form st) = field_order
  ∧ spans (Components.Form st)
    = omap (λ name, Form.message <$> errors st !! name) field_order
  ∧ (length (spans (Components.Form st)) ≤ 5)%nat.
Proof.
  split; [|split].
  - unfold Components.Form, Components.Form_fields.
    generalize (errors st !! F_email) (errors st !! F_githubUrl)
      (errors st !! F_yearsOfExperience) (errors st !! F_password)
      (errors st !! F_confirmPassword).
    by intros [] [] [] [] [].
  - apply Form_spans.
  - rewrite Form_spans. unfold field_order, fieldErrorMapping.
    cbn [fmap list_fmap snd omap list_omap].
    generalize (errors st !! F_email) (errors st !! F_githubUrl)
      (errors st !! F_yearsOfExperience) (errors st !! F_password)
      (errors st !! F_confirmPassword).
    intros [] [] [] [] []; cbn; lia.
Qed.

(** X16: when a form without errors receives a response whose first truthy
    entry, in field order, is that of [f] and is a string, hence a non-empty
    one, the form then shows exactly one error line, and this line carries
    that string. *)
Theorem Form_shows_server_error data errs st pre f name post text :
  errors st = ∅ →
  get data "errors" = Normal (JsObj errs) →
  fieldErrorMapping = pre ++ (f, name) :: post →
  (∀ g, g ∈ pre.*1 → truthy (entry errs g) = false) →
  entry errs f = JsStr text →
  text ≠ "" →
  spans (Components.Form (onSubmit (Resolved data) st)) = [JsStr text].
Proof.
  intros Hempty Hget Hsplit Hpre Htext Hne.
  assert (truthy (entry errs f) = true) as Hf.
  { rewrite Htext. cbn. by apply negb_true_iff, String.eqb_neq. }
  rewrite (onSubmit_first_truthy _ _ _ _ _ _ _ Hget Hsplit Hpre Hf).
  rewrite Form_spans. unfold server_error. cbn [setError errors].
  rewrite Hempty, Htext.
  unfold field_order, fieldErrorMapping. cbn [fmap list_fmap snd omap list_omap].
  destruct name; by simplify_map_eq.
Qed.

End Rendering.

(** ** Submitting *)

Section Submitting.

Context `{Platform}.

Implicit Types (st : FormState) (values : list (string * JsValue))
  (post : FormData → AxiosResult) (m : gmap string FieldError).

(** The resolver's error for a joined path: the one already there, or that
    of the first issue with this path. *)
Lemma parseErrorSchema_lookup issues m k :
  Resolver.parseErrorSchema issues m !! k
  = match m !! k with
    | Some e => Some e
    | None =>
        Resolver.field_error
        <$> head (filter (λ i, String.concat "." (path i) = k) issues)
    end.
Proof.
  revert m. induction issues as [|i issues IH]; intros m;
    cbn [Resolver.parseErrorSchema].
  - by destruct (m !! k).
  - rewrite IH. destruct (decide (String.concat "." (path i) = k)) as [<-|Hne].
    + rewrite filter_cons_True by done.
      destruct (m !! String.concat "." (path i)) eqn:Hm; [by rewrite Hm|].
      by rewrite lookup_insert_eq.
    + rewrite filter_cons_False by done.
      destruct (m !! String.concat "." (path i)); [done|].
      by rewrite lookup_insert_ne.
Qed.

Lemma fieldErrors_lookup m key name :
  (key, name) ∈ fieldErrorMapping → Resolver.fieldErrors m !! name = m !! key.
Proof.
  intros Hin%list_elem_of_In. unfold Resolver.fieldErrors, fieldErrorMapping in *.
  cbn [omap list_omap]. cbn in Hin.
  destruct Hin as [[= <- <-]|[[= <- <-]|[[= <- <-]|[[= <- <-]|[[= <- <-]|[]]]]]];
    generalize (m !! "email") (m !! "githubUrl") (m !! "yearsOfExperience")
      (m !! "password") (m !! "confirmPassword");
    intros [] [] [] [] []; cbn; by simplify_map_eq.
Qed.

(** Every issue reported on an object is on one of its keys. *)
Lemma validate_paths values i : i ∈ validate (JsObj values) → ∃ key, path i = [key].
Proof.
  rewrite validate_object. rewrite !elem_of_app.
  intros [Hi|[Hi|[Hi|[Hi|[Hi|Hi]]]]]; eexists;
    first [ by eapply z_string_path | by eapply z_number_path
          | by eapply refinement_path ].
Qed.

Lemma filter_agree (P Q : ZodIssue → Prop) `{!∀ i, Decision (P i)}
    `{!∀ i, Decision (Q i)} (l : list ZodIssue) :
  (∀ i, i ∈ l → P i ↔ Q i) → filter P l = filter Q l.
Proof.
  induction l as [|i l IH]; intros Hl; [done|].
  assert (filter P l = filter Q l) as IH' by (apply IH; intros j Hj; apply Hl; by right).
  destruct (decide (P i)) as [HP|HP].
  - rewrite !filter_cons_True by (done || by apply Hl; [left|]). by rewrite IH'.
  - rewrite !filter_cons_False; [done| |done]. intros HQ. apply HP, Hl; [by left|done].
Qed.

Lemma first_issue_joined values key :
  head (filter (λ i, String.concat "." (path i) = key) (validate (JsObj values)))
  = first_issue key (validate (JsObj values)).
Proof.
  unfold first_issue. f_equal. apply filter_agree.
  intros i [k Hk]%validate_paths. rewrite Hk. cbn. split; congruence.
Qed.

(** The state after a submission that fails validation. *)
Lemma handleSubmit_invalid post values st :
  validate (JsObj values) ≠ [] →
  Resolver.handleSubmit post values st
  = {| errors :=
         Resolver.fieldErrors (Resolver.parseErrorSchema (validate (JsObj values)) ∅);
       alerts := alerts st |}.
Proof.
  intros Hinvalid. unfold Resolver.handleSubmit, Resolver.zodResolver.
  destruct (safeParse UserSchema (JsObj values)) as [data|issues] eqn:Hparse.
  - destruct Hinvalid. apply safeParse_success. eauto.
  - unfold safeParse, validate in *.
    destruct (UserSchema [] (JsObj values)) as [[a|a|] l]; cbn in *;
      by simplify_eq.
Qed.

(** X17: a record that fails validation is not sent: the outcome does not
    depend on what the request would come back with, no alert is shown, and
    each of the five fields gets the error of the first issue reported on it,
    or none if there is no such issue; the errors the form had before are
    gone. *)
Theorem handleSubmit_blocks_invalid post values st :
  validate (JsObj values) ≠ [] →
  (∀ post' st', alerts st' = alerts st →
     Resolver.handleSubmit post' values st' = Resolver.handleSubmit post values st)
  ∧ alerts (Resolver.handleSubmit post values st) = alerts st
  ∧ (∀ key name, (key, name) ∈ fieldErrorMapping →
       errors (Resolver.handleSubmit post values st) !! name
       = Resolver.field_error <$> first_issue key (validate (JsObj values))).
Proof.
  intros Hinvalid. rewrite handleSubmit_invalid by done. split; [|split].
  - intros post' st' Halerts. rewrite handleSubmit_invalid by done.
    by rewrite Halerts.
  - done.
  - intros key name Hin. cbn [errors].
    rewrite (fieldErrors_lookup _ key name Hin), parseErrorSchema_lookup.
    by rewrite lookup_empty, first_issue_joined.
Qed.

(** X18: after a submission a field has an error of type ["server"] only
    if the record passed validation, and then it is the only error of the
    form: the errors of the schema and those of the server never show
    together. *)
Theorem handleSubmit_server_error_alone post values st name e :
  errors (Resolver.handleSubmit post values st) !! name = Some e →
  type e = "server" →
  (∃ data, safeParse UserSchema (JsObj values) = inl data)
  ∧ (∀ other, other ≠ name →
       errors (Resolver.handleSubmit post values st) !! other = None).
Proof.
  unfold Resolver.handleSubmit, Resolver.zodResolver.
  destruct (safeParse UserSchema (JsObj values)) as [data|issues] eqn:Hparse.
  - intros Hname Htype. split; [by eexists|].
    set (st0 := {| errors := ∅; alerts := alerts st |}) in *.
    unfold onSubmit in *. destruct (post data) as [|body]; [done|].
    destruct (onSubmit_try body st0) as [st'|] eqn:Htry; [|done].
    apply onSubmit_try_result in Htry as [->|(name' & msg & _ & ->)]; [done|].
    cbn [setError errors st0] in *. intros other Hne.
    destruct (decide (name' = name)) as [->|Hne'].
    + by rewrite lookup_insert_ne.
    + by rewrite lookup_insert_ne in Hname.
  - cbn [errors]. intros Hname Htype. exfalso.
    assert (∃ key, (key, name) ∈ fieldErrorMapping) as [key Hkey]
      by (destruct name; eexists; apply list_elem_of_In; cbn; eauto 6).
    rewrite (fieldErrors_lookup _ key name Hkey), parseErrorSchema_lookup,
      lookup_empty in Hname.
    destruct (head _) as [i|]; [|done]. injection Hname as <-.
    unfold Resolver.field_error in Htype. cbn [type] in Htype.
    by destruct (code i).
Qed.

Lemma filter_path_other key p (l : list ZodIssue) :
  p ≠ [key] → (∀ i, i ∈ l → path i = p) → filter (λ i, path i = [key]) l = [].
Proof.
  intros Hne Hl. induction l as [|i l IH]; [done|].
  rewrite filter_cons_False by (rewrite (Hl i) by left; done).
  apply IH. intros j Hj. apply Hl. by right.
Qed.

Lemma filter_path_same key (l : list ZodIssue) :
  (∀ i, i ∈ l → path i = [key]) → filter (λ i, path i = [key]) l = l.
Proof.
  intros Hl. induction l as [|i l IH]; [done|].
  rewrite filter_cons_True by (apply Hl; left). f_equal.
  apply IH. intros j Hj. apply Hl. by right.
Qed.

(** X19: when the GitHub URL is a string that does not parse as a URL, the
    error the form keeps for the field after a submission is the one of the
    first check, ["Invalid url"], whether or not the string contains
    ["github.com"]: the message of the second check stays hidden behind
    it. *)
Theorem handleSubmit_githubUrl_first_error post values st g :
  own values "githubUrl" = Some (JsStr g) →
  URL_parses g = false →
  errors (Resolver.handleSubmit post values st) !! F_githubUrl
  = Some {| type := "invalid_string"; Form.message := JsStr "Invalid url" |}.
Proof.
  intros Hown Hu.
  assert (∃ rest, githubUrl_issues values
                  = {| code := invalid_string; path := ["githubUrl"];
                       Zod.message := "Invalid url" |} :: rest) as [rest Hissues].
  { unfold githubUrl_issues, entry, githubUrl_schema. rewrite Hown.
    cbn [default from_option id]. rewrite z_string_issues.
    cbn [flat_map run_string_check]. rewrite Hu. by eexists. }
  assert (first_issue "githubUrl" (validate (JsObj values))
          = Some {| code := invalid_string; path := ["githubUrl"];
                    Zod.message := "Invalid url" |}) as Hfirst.
  { unfold first_issue. rewrite validate_object, !filter_app.
    rewrite (filter_path_other "githubUrl" ["email"] (email_issues values))
      by issue_paths.
    rewrite (filter_path_same "githubUrl" (githubUrl_issues values)) by issue_paths.
    by rewrite Hissues. }
  assert (validate (JsObj values) ≠ []) as Hinvalid.
  { intros Hnil. rewrite Hnil in Hfirst. discriminate. }
  rewrite handleSubmit_invalid by done. cbn [errors].
  rewrite (fieldErrors_lookup _ "githubUrl" F_githubUrl)
    by (apply list_elem_of_In; cbn; tauto).
  by rewrite parseErrorSchema_lookup, lookup_empty, first_issue_joined, Hfirst.
Qed.

End Submitting.

(** ** The further rules on concrete inputs *)

Section FurtherExamples.

#[local] Existing Instance demo_platform.

(** X1 at a valid record. *)
Lemma safeParse_accepts_witness :
  safeParse UserSchema
    (record (JsStr "ada@example.com") (JsStr "https://github.com/ada")
            (JsNum (of_Z 3)) (JsStr "Secret123") (JsStr "Secret123"))
  = inl {| email := "ada@example.com"; githubUrl := "https://github.com/ada";
           yearsOfExperience := of_Z 3;
           password := "Secret123"; confirmPassword := "Secret123" |}.
Proof.
  apply (@safeParse_accepts demo_platform).
  split; [eexists; repeat split; done|].
  split; [reflexivity|]. split; [reflexivity|].
  split; [apply includes_spec; reflexivity|].
  split; [exists (inject_Z 3); split; [reflexivity|]; split; unfold Qle; cbn; lia|].
  split; [cbn; lia|reflexivity].
Defined.

(** X2 at an object with an unknown key in front and its keys in another
    order. *)
Lemma UserSchema_reads_five_keys_witness :
  UserSchema []
    (JsObj [("nickname", JsStr "ada"); ("password", JsStr "short");
            ("email", JsStr "ada@example.com")])
  = UserSchema []
      (JsObj [("email", JsStr "ada@example.com"); ("password", JsStr "short")]).
Proof.
  apply (@UserSchema_reads_five_keys demo_platform).
  intros key Hkey. apply list_elem_of_In in Hkey. cbn in Hkey.
  destruct Hkey as [<-|[<-|[<-|[<-|[<-|[]]]]]]; reflexivity.
Defined.

(** X3 at an array and at [undefined]. *)
Lemma UserSchema_not_an_object_witness :
  validate (JsArr [])
  = [ {| code := invalid_type; path := [];
         Zod.message := "Expected object, received array" |} ]
  ∧ validate JsUndefined
    = [ {| code := invalid_type; path := []; Zod.message := "Required" |} ].
Proof.
  split.
  - apply (@UserSchema_not_an_object demo_platform (JsArr [])). discriminate.
  - apply (@UserSchema_not_an_object demo_platform JsUndefined). discriminate.
Defined.

(** X4 at two records that share the email and differ elsewhere. *)
Lemma field_messages_independent_witness :
  field_messages "email"
    (JsObj [("email", JsStr "ada"); ("password", JsStr "short")])
  = field_messages "email"
      (JsObj [("yearsOfExperience", JsNum NaN); ("email", JsStr "ada")]).
Proof.
  apply (@field_messages_independent demo_platform "email").
  - apply list_elem_of_In. left. reflexivity.
  - reflexivity.
Defined.

(** X5 at a GitHub address without a scheme, and at a word. *)
Lemma githubUrl_not_a_url_witness :
  field_messages "githubUrl" (JsObj [("githubUrl", JsStr "github.com/ada")])
  = ["Invalid url"]
  ∧ field_messages "githubUrl" (JsObj [("githubUrl", JsStr "ada")])
    = ["Invalid url"; "Invalid GitHub URL"].
Proof.
  split.
  - apply (@githubUrl_not_a_url demo_platform
             [("githubUrl", JsStr "github.com/ada")] "github.com/ada");
      [reflexivity|reflexivity|].
    apply includes_spec. reflexivity.
  - apply (@githubUrl_not_a_url demo_platform [("githubUrl", JsStr "ada")] "ada");
      [reflexivity|reflexivity|].
    intros Hc%includes_spec. vm_compute in Hc. discriminate.
Defined.

(** X6 at an object without a password, and at one whose email is a number. *)
Lemma string_field_wrong_type_witness :
  field_messages "password" (JsObj [("email", JsStr "ada@example.com")]) = ["Required"]
  ∧ field_messages "email" (JsObj [("email", JsNum (of_Z 7))])
    = ["Expected string, received number"].
Proof.
  split.
  - apply (@string_field_wrong_type demo_platform "password"
             [("email", JsStr "ada@example.com")]).
    + apply list_elem_of_In. cbn. tauto.
    + reflexivity.
  - destruct (@string_field_wrong_type demo_platform "email"
                [("email", JsNum (of_Z 7))]) as [_ Hwrong].
    + apply list_elem_of_In. cbn. tauto.
    + apply (Hwrong (JsNum (of_Z 7))); [reflexivity|discriminate|reflexivity].
Defined.

(** X7 at one half and at twelve and a half. *)
Lemma yearsOfExperience_out_of_range_witness :
  field_messages "yearsOfExperience"
    (JsObj [("yearsOfExperience", JsNum (Finite (1 # 2)))])
  = ["Number must be greater than or equal to 1"]
  ∧ field_messages "yearsOfExperience"
      (JsObj [("yearsOfExperience", JsNum (Finite (25 # 2)))])
    = ["Number must be less than or equal to 10"].
Proof.
  split.
  - apply (@yearsOfExperience_out_of_range demo_platform
             [("yearsOfExperience", JsNum (Finite (1 # 2)))] (Finite (1 # 2)) eq_refl).
    right. exists (1 # 2). split; [reflexivity|]. unfold Qlt. cbn. lia.
  - apply (@yearsOfExperience_out_of_range demo_platform
             [("yearsOfExperience", JsNum (Finite (25 # 2)))] (Finite (25 # 2))
             eq_refl).
    right. exists (25 # 2). split; [reflexivity|]. unfold Qlt. cbn. lia.
Defined.

(** X8 on the password of an empty object. *)
Lemma messages_per_field_witness :
  (length (field_messages "password" (JsObj [])) ≤ 1)%nat.
Proof.
  apply (@messages_per_field demo_platform (JsObj []) "password"). discriminate.
Defined.

(** X9 at an accepted address. *)
Lemma accepted_email_shape_witness :
  ∃ local domain tld,
    "ada@mail.example.com" = local +:+ "@" +:+ domain +:+ "." +:+ tld
    ∧ local ≠ "" ∧ domain ≠ ""
    ∧ (2 ≤ String.length tld)%nat ∧ letters tld = true.
Proof.
  apply (@accepted_email_shape demo_platform
           [("email", JsStr "ada@mail.example.com")] "ada@mail.example.com" eq_refl).
  vm_compute. reflexivity.
Defined.

(** X10 at an address with two dots in a row, and at one that starts with
    a dot. *)
Lemma email_stray_dots_witness :
  field_messages "email" (JsObj [("email", JsStr "ada..l@example.com")])
  = ["Invalid email"]
  ∧ field_messages "email" (JsObj [("email", JsStr ".ada@example.com")])
    = ["Invalid email"].
Proof.
  split.
  - apply (@email_stray_dots demo_platform
             [("email", JsStr "ada..l@example.com")] "ada..l@example.com" eq_refl).
    right. by exists "ada", "l@example.com".
  - apply (@email_stray_dots demo_platform
             [("email", JsStr ".ada@example.com")] ".ada@example.com" eq_refl).
    left. by exists "ada@example.com".
Defined.

(** X11 at a body whose [errors] is [null]. *)
Lemma onSubmit_alert_iff_witness :
  alerts (onSubmit (Resolved (JsObj [("errors", JsNull)])) initial) ≠ alerts initial.
Proof.
  apply (onSubmit_alert_iff (Resolved (JsObj [("errors", JsNull)])) initial).
  right. right. right. by exists [("errors", JsNull)].
Defined.

(** X12 at a body whose [errors] is a string. *)
Lemma onSubmit_errors_not_an_object_witness :
  onSubmit (Resolved (JsObj [("errors", JsStr "Email already registered")])) initial
  = initial.
Proof.
  apply (onSubmit_errors_not_an_object
           (JsObj [("errors", JsStr "Email already registered")])
           (JsStr "Email already registered") initial);
    [reflexivity|discriminate|discriminate].
Defined.

(** X14 at two bodies that list the same entries in opposite orders, one
    of them with a property and an entry more. *)
Lemma onSubmit_reads_five_entries_witness :
  onSubmit (Resolved (JsObj [("errors",
              JsObj [("password", JsStr "Too weak"); ("email", JsStr "Taken")])]))
    initial
  = onSubmit (Resolved (JsObj [("ok", JsBool false); ("errors",
                JsObj [("email", JsStr "Taken"); ("username", JsStr "Taken");
                       ("password", JsStr "Too weak")])]))
      initial.
Proof.
  apply (onSubmit_reads_five_entries
           (JsObj [("errors",
              JsObj [("password", JsStr "Too weak"); ("email", JsStr "Taken")])])
           (JsObj [("ok", JsBool false); ("errors",
              JsObj [("email", JsStr "Taken"); ("username", JsStr "Taken");
                     ("password", JsStr "Too weak")])])
           [("password", JsStr "Too weak"); ("email", JsStr "Taken")]
           [("email", JsStr "Taken"); ("username", JsStr "Taken");
            ("password", JsStr "Too weak")]
           initial eq_refl eq_refl).
  intros f Hf. apply list_elem_of_In in Hf. cbn in Hf.
  destruct Hf as [<-|[<-|[<-|[<-|[<-|[]]]]]]; reflexivity.
Defined.

(** X16 at a response with errors for [password] and [githubUrl]. *)
Lemma Form_shows_server_error_witness :
  spans (Components.Form
           (onSubmit (Resolved (JsObj [("errors",
                        JsObj [("password", JsStr "Too weak");
                               ("githubUrl", JsStr "Unknown user")])])) initial))
  = [JsStr "Unknown user"].
Proof.
  apply (Form_shows_server_error
           (JsObj [("errors",
              JsObj [("password", JsStr "Too weak");
                     ("githubUrl", JsStr "Unknown user")])])
           [("password", JsStr "Too weak"); ("githubUrl", JsStr "Unknown user")]
           initial [("email", F_email)] "githubUrl" F_githubUrl
           [("yearsOfExperience", F_yearsOfExperience); ("password", F_password);
            ("confirmPassword", F_confirmPassword)]
           "Unknown user" eq_refl eq_refl eq_refl).
  - intros g Hg. apply list_elem_of_In in Hg. cbn in Hg.
    destruct Hg as [<-|[]]. reflexivity.
  - reflexivity.
  - discriminate.
Defined.

(** X17 at a record whose email is not an address, with a request that
    would be rejected if it were made. *)
Lemma handleSubmit_blocks_invalid_witness :
  alerts (Resolver.handleSubmit (λ _, Rejected)
            [("email", JsStr "ada"); ("password", JsStr "Secret123")] initial)
  = []
  ∧ errors (Resolver.handleSubmit (λ _, Rejected)
              [("email", JsStr "ada"); ("password", JsStr "Secret123")] initial)
    !! F_email
    = Some {| type := "invalid_string"; Form.message := JsStr "Invalid email" |}
  ∧ errors (Resolver.handleSubmit (λ _, Rejected)
              [("email", JsStr "ada"); ("password", JsStr "Secret123")] initial)
    !! F_password
    = None.
Proof.
  destruct (@handleSubmit_blocks_invalid demo_platform (λ _, Rejected)
              [("email", JsStr "ada"); ("password", JsStr "Secret123")] initial)
    as (_ & Halerts & Herrors).
  - intros Hv. vm_compute in Hv. discriminate.
  - split; [exact Halerts|]. split.
    + rewrite (Herrors "email" F_email) by (apply list_elem_of_In; cbn; tauto).
      reflexivity.
    + rewrite (Herrors "password" F_password) by (apply list_elem_of_In; cbn; tauto).
      reflexivity.
Defined.

(** X18 at a valid record that the server answers with an error for the
    email. *)
Lemma handleSubmit_server_error_alone_witness :
  (∃ data,
     safeParse UserSchema
       (JsObj [("email", JsStr "ada@example.com");
               ("githubUrl", JsStr "https://github.com/ada");
               ("yearsOfExperience", JsNum (of_Z 3));
               ("password", JsStr "Secret123");
               ("confirmPassword", JsStr "Secret123")])
     = inl data)
  ∧ errors (Resolver.handleSubmit
              (λ _, Resolved (JsObj [("errors", JsObj [("email", JsStr "Taken")])]))
              [("email", JsStr "ada@example.com");
               ("githubUrl", JsStr "https://github.com/ada");
               ("yearsOfExperience", JsNum (of_Z 3));
               ("password", JsStr "Secret123");
               ("confirmPassword", JsStr "Secret123")]
              initial) !! F_password
    = None.
Proof.
  destruct (@handleSubmit_server_error_alone demo_platform
              (λ _, Resolved (JsObj [("errors", JsObj [("email", JsStr "Taken")])]))
              [("email", JsStr "ada@example.com");
               ("githubUrl", JsStr "https://github.com/ada");
               ("yearsOfExperience", JsNum (of_Z 3));
               ("password", JsStr "Secret123");
               ("confirmPassword", JsStr "Secret123")]
              initial F_email
              {| type := "server"; Form.message := JsStr "Taken" |})
    as [Hvalid Halone].
  - vm_compute. reflexivity.
  - reflexivity.
  - split; [exact Hvalid|]. apply (Halone F_password). discriminate.
Defined.

(** X19 at a GitHub address without a scheme. *)
Lemma handleSubmit_githubUrl_first_error_witness :
  errors (Resolver.handleSubmit (λ _, Rejected)
            [("githubUrl", JsStr "github.com/ada")] initial) !! F_githubUrl
  = Some {| type := "invalid_string"; Form.message := JsStr "Invalid url" |}.
Proof.
  apply (@handleSubmit_githubUrl_first_error demo_platform (λ _, Rejected)
           [("githubUrl", JsStr "github.com/ada")] initial "github.com/ada");
    reflexivity.
Defined.

End FurtherExamples.

(** ** The rules and the verdict *)

Import Verdict.

Section Verdicts.

Context `{Platform}.

Implicit Types (props : list (string * JsValue)) (p : list string) (data : FormData).

(** *** Each schema adds no issue exactly when its rule holds *)

Lemma email_part p e : (email_schema p (JsStr e)).2 = [] ↔ emailRegex_test e = true.
Proof.
  split.
  - intros Hnil. apply (f_equal (fmap Zod.message)) in Hnil.
    rewrite email_messages_of in Hnil. by destruct (emailRegex_test e).
  - intros He. apply fmap_nil_inv with (f := Zod.message).
    by rewrite email_messages_of, He.
Qed.

Lemma githubUrl_part p g :
  (githubUrl_schema p (JsStr g)).2 = []
  ↔ URL_parses g = true ∧ contains g "github.com".
Proof.
  rewrite <- includes_spec. split.
  - intros Hnil. apply (f_equal (fmap Zod.message)) in Hnil.
    rewrite githubUrl_messages_of in Hnil.
    by destruct (URL_parses g), (includes g "github.com").
  - intros [Hu Hi]. apply fmap_nil_inv with (f := Zod.message).
    by rewrite githubUrl_messages_of, Hu, Hi.
Qed.

Lemma yearsOfExperience_part p n :
  (yearsOfExperience_schema p (JsNum n)).2 = [] ↔ in_bounds n.
Proof.
  unfold in_bounds. split.
  - intros Hnil. apply (f_equal (fmap Zod.message)) in Hnil.
    rewrite years_schema_messages in Hnil.
    destruct n as [| | |q]; try discriminate.
    exists q. split; [done|]. rewrite <- !Qle_bool_iff.
    by destruct (Qle_bool 1 q), (Qle_bool q 10).
  - intros (q & -> & H1%Qle_bool_iff & H2%Qle_bool_iff).
    apply fmap_nil_inv with (f := Zod.message).
    by rewrite years_schema_messages, H1, H2.
Qed.

Lemma password_part p s :
  (password_schema p (JsStr s)).2 = [] ↔ (8 ≤ String.length s ≤ 20)%nat.
Proof.
  split.
  - intros Hnil. apply (f_equal (fmap Zod.message)) in Hnil.
    rewrite password_messages_of in Hnil.
    destruct (Nat.ltb_spec (String.length s) 8), (Nat.ltb_spec 20 (String.length s));
      try discriminate. lia.
  - intros Hlen. apply fmap_nil_inv with (f := Zod.message).
    rewrite password_messages_of.
    destruct (Nat.ltb_spec (String.length s) 8), (Nat.ltb_spec 20 (String.length s));
      try lia. done.
Qed.

(** *** When a record is accepted *)

Lemma safeParse_parts v data :
  safeParse UserSchema v = inl data
  ↔ well_typed v data
    ∧ (email_schema ["email"] (JsStr (email data))).2 = []
    ∧ (githubUrl_schema ["githubUrl"] (JsStr (githubUrl data))).2 = []
    ∧ (yearsOfExperience_schema ["yearsOfExperience"]
         (JsNum (yearsOfExperience data))).2 = []
    ∧ (password_schema ["password"] (JsStr (password data))).2 = []
    ∧ password data = confirmPassword data.
Proof.
  rewrite safeParse_inl. split.
  - intros [Hvalid Hvalue].
    assert (well_typed v data) as Htyped.
    { destruct v as [| | | | | |props]; try discriminate. by apply well_typed_value. }
    split; [done|]. destruct Htyped as (props & -> & Hrest).
    assert (well_typed (JsObj props) data) as Htyped by by exists props.
    rewrite (validate_well_typed _ _ Htyped) in Hvalid.
    apply app_eq_nil in Hvalid as [Hemail Hvalid].
    apply app_eq_nil in Hvalid as [Hgithub Hvalid].
    apply app_eq_nil in Hvalid as [Hyears Hvalid].
    apply app_eq_nil in Hvalid as [Hpassword Hmatch%refinement_issues_nil].
    done.
  - intros (Htyped & He & Hg & Hy & Hp & Hmatch%refinement_issues_nil).
    pose proof Htyped as (props & -> & _).
    split; [|by apply well_typed_value].
    by rewrite (validate_well_typed _ _ Htyped), He, Hg, Hy, Hp, Hmatch.
Qed.

(** A record is accepted exactly when each field passes its rule and the
    two passwords are the same string. *)
Lemma accepted_iff props :
  accepted props
  ↔ email_ok props ∧ githubUrl_ok props ∧ yearsOfExperience_ok props
    ∧ password_ok props ∧ confirmPassword_ok props.
Proof.
  unfold accepted. split.
  - intros [data (Htyped & He & Hg & Hy & Hp & Hmatch)%safeParse_parts].
    destruct Htyped as (props' & [= <-] & Oe & Og & Oy & _ & Op & Oc).
    split; [|split; [|split; [|split]]].
    + exists (email data). split; [done|]. by apply (email_part ["email"]).
    + exists (githubUrl data). split; [done|]. by apply (githubUrl_part ["githubUrl"]).
    + exists (yearsOfExperience data). split; [done|].
      by apply (yearsOfExperience_part ["yearsOfExperience"]).
    + exists (password data). split; [done|]. by apply (password_part ["password"]).
    + exists (password data). split; [done|]. by rewrite Hmatch.
  - intros ((e & Oe & He) & (g & Og & Hg) & (n & Oy & Hn) & (s & Op & Hs)
            & (s' & Op' & Oc)).
    assert (s' = s) as -> by congruence.
    exists {| email := e; githubUrl := g; yearsOfExperience := n;
              password := s; confirmPassword := s |}.
    apply safeParse_parts. cbn [email githubUrl yearsOfExperience password
                                 confirmPassword].
    split; [|split; [|split; [|split; [|split]]]].
    + exists props. repeat split; try done.
      destruct Hn as (q & -> & _). discriminate.
    + by apply email_part.
    + by apply githubUrl_part.
    + by apply yearsOfExperience_part.
    + by apply password_part.
    + done.
Qed.

(** An accepted record gets no message on any key. *)
Lemma accepted_no_message props key :
  accepted props → field_messages key (JsObj props) = [].
Proof.
  intros Hacc. unfold field_messages.
  assert (validate (JsObj props) = []) as -> by by apply safeParse_success.
  reflexivity.
Qed.

(** A schema's result is valid exactly when it has no message. *)
Lemma valid_iff_no_message {A} (r : ParseReturnType A * list ZodIssue) :
  coherent r → (∃ a, r.1 = OK a) ↔ Zod.message <$> r.2 = [].
Proof.
  intros [H1 H2]. split.
  - intros Hok. by rewrite (H1 Hok).
  - intros Hnil%fmap_nil_inv. by apply H2.
Qed.

Lemma yearsOfExperience_messages_nil props :
  field_messages "yearsOfExperience" (JsObj props) = [] ↔ yearsOfExperience_ok props.
Proof.
  rewrite field_messages_yearsOfExperience.
  unfold yearsOfExperience_issues, entry, yearsOfExperience_ok.
  destruct (own props "yearsOfExperience") as [v|]; cbn [default from_option id].
  - split.
    + intros Hnil%fmap_nil_inv. destruct v as [| | |n| | |]; try discriminate.
      exists n. split; [done|]. by apply (yearsOfExperience_part ["yearsOfExperience"]).
    + intros (n & [= ->] & Hn).
      by rewrite (proj2 (yearsOfExperience_part ["yearsOfExperience"] n) Hn).
  - split; [discriminate|]. by intros (n & ? & _).
Qed.

Lemma githubUrl_messages_nil props :
  field_messages "githubUrl" (JsObj props) = [] ↔ githubUrl_ok props.
Proof.
  rewrite field_messages_githubUrl. unfold githubUrl_issues, entry, githubUrl_ok.
  destruct (own props "githubUrl") as [v|]; cbn [default from_option id].
  - split.
    + intros Hnil%fmap_nil_inv. destruct v as [| | | |g| |]; try discriminate.
      exists g. split; [done|]. by apply (githubUrl_part ["githubUrl"]).
    + intros (g & [= ->] & Hg).
      by rewrite (proj2 (githubUrl_part ["githubUrl"] g) Hg).
  - split; [discriminate|]. by intros (g & ? & _).
Qed.

(** *** The rules of the fields, with the verdict *)

(** C2, amended: validation of [yearsOfExperience] accepts the value exactly
    when it is a number, not [NaN], in the inclusive range from 1 to 10;
    whether the number is whole plays no part. Exactly then the field gets no
    message and the result of its schema is valid; no record is accepted
    otherwise; and a record whose other fields pass their rules is accepted
    exactly then. *)
Theorem yearsOfExperience_accepts_in_bounds props :
  (field_messages "yearsOfExperience" (JsObj props) = []
   ↔ ∃ n, own props "yearsOfExperience" = Some (JsNum n) ∧ in_bounds n)
  ∧ ((∃ n, (yearsOfExperience_schema ["yearsOfExperience"]
              (entry props "yearsOfExperience")).1 = OK n)
     ↔ ∃ n, own props "yearsOfExperience" = Some (JsNum n) ∧ in_bounds n)
  ∧ (accepted props
     → ∃ n, own props "yearsOfExperience" = Some (JsNum n) ∧ in_bounds n)
  ∧ (email_ok props → githubUrl_ok props → password_ok props →
     confirmPassword_ok props →
     (accepted props
      ↔ ∃ n, own props "yearsOfExperience" = Some (JsNum n) ∧ in_bounds n)).
Proof.
  fold (yearsOfExperience_ok props).
  split; [apply yearsOfExperience_messages_nil|]. split; [|split].
  - rewrite <- yearsOfExperience_messages_nil, field_messages_yearsOfExperience.
    apply valid_iff_no_message, z_number_coherent.
  - intros Hacc%accepted_iff. tauto.
  - intros He Hg Hp Hc. rewrite accepted_iff. tauto.
Qed.

(** C3: on the [yearsOfExperience] field, 0 and 11 fail the range checks,
    with a dirty result and no record accepted, while 1 and 10 pass, with a
    valid result and the record accepted when its other fields pass; a
    missing value fails with ["required field"]; a present value that is not
    a number fails with ["Years of Experience is required"]; in both cases
    the result is aborted and no record is accepted; and the two messages
    differ. *)
Theorem yearsOfExperience_messages props :
  let msgs := field_messages "yearsOfExperience" (JsObj props) in
  let result :=
    (yearsOfExperience_schema ["yearsOfExperience"]
       (entry props "yearsOfExperience")).1 in
  let others :=
    email_ok props ∧ githubUrl_ok props ∧ password_ok props
    ∧ confirmPassword_ok props in
  (own props "yearsOfExperience" = Some (JsNum (of_Z 0)) →
     msgs = ["Number must be greater than or equal to 1"]
     ∧ result = DIRTY (of_Z 0) ∧ ¬ accepted props)
  ∧ (own props "yearsOfExperience" = Some (JsNum (of_Z 11)) →
       msgs = ["Number must be less than or equal to 10"]
       ∧ result = DIRTY (of_Z 11) ∧ ¬ accepted props)
  ∧ (own props "yearsOfExperience" = Some (JsNum (of_Z 1)) →
       msgs = [] ∧ result = OK (of_Z 1) ∧ (others → accepted props))
  ∧ (own props "yearsOfExperience" = Some (JsNum (of_Z 10)) →
       msgs = [] ∧ result = OK (of_Z 10) ∧ (others → accepted props))
  ∧ (own props "yearsOfExperience" = None
     ∨ own props "yearsOfExperience" = Some JsUndefined →
       msgs = ["required field"] ∧ result = INVALID ∧ ¬ accepted props)
  ∧ (∀ v, own props "yearsOfExperience" = Some v → non_numeric v →
       msgs = ["Years of Experience is required"]
       ∧ result = INVALID ∧ ¬ accepted props)
  ∧ "required field" ≠ "Years of Experience is required".
Proof.
  intros msgs result others.
  assert (∀ m, msgs = [m] → ¬ accepted props) as Hrejected.
  { intros m Hm Hacc%(accepted_no_message _ "yearsOfExperience").
    fold msgs in Hacc. congruence. }
  assert (∀ z, (1 ≤ z ≤ 10)%Z →
            own props "yearsOfExperience" = Some (JsNum (of_Z z)) →
            others → accepted props) as Haccepted.
  { intros z Hz Hown (He & Hg & Hp & Hc). apply accepted_iff.
    repeat split; try done. exists (of_Z z). split; [done|].
    exists (inject_Z z). split; [done|]. unfold Qle. cbn. lia. }
  assert (msgs = Zod.message
                 <$> (yearsOfExperience_schema ["yearsOfExperience"]
                        (entry props "yearsOfExperience")).2) as Hmsgs
    by apply field_messages_yearsOfExperience.
  rewrite years_schema_messages in Hmsgs.
  subst result. unfold entry in *.
  split; [|split; [|split; [|split; [|split; [|split]]]]].
  - intros Hown. rewrite Hown in Hmsgs |- *.
    assert (msgs = ["Number must be greater than or equal to 1"]) as Hm
      by exact Hmsgs.
    split; [done|]. split; [reflexivity|]. exact (Hrejected _ Hm).
  - intros Hown. rewrite Hown in Hmsgs |- *.
    assert (msgs = ["Number must be less than or equal to 10"]) as Hm
      by exact Hmsgs.
    split; [done|]. split; [reflexivity|]. exact (Hrejected _ Hm).
  - intros Hown. rewrite Hown in Hmsgs |- *.
    split; [exact Hmsgs|]. split; [reflexivity|].
    apply (Haccepted 1%Z); [lia|done].
  - intros Hown. rewrite Hown in Hmsgs |- *.
    split; [exact Hmsgs|]. split; [reflexivity|].
    apply (Haccepted 10%Z); [lia|done].
  - intros [Hown|Hown]; rewrite Hown in Hmsgs |- *;
      (assert (msgs = ["required field"]) as Hm by exact Hmsgs);
      (split; [done|]; split; [reflexivity|]; exact (Hrejected _ Hm)).
  - intros v Hown [Hundef Htype]. rewrite Hown in Hmsgs |- *.
    cbn [default from_option id] in *.
    assert (msgs = ["Years of Experience is required"]) as Hm
      by (by destruct v as [| | |[| | |q]| | |]).
    split; [done|]. split; [|exact (Hrejected _ Hm)].
    by destruct v as [| | |[| | |q]| | |].
  - discriminate.
Qed.

(** C4: password validation passes exactly when the length of the password
    is between 8 and 20 inclusive: exactly then the field gets no message and
    the result of its schema is valid, no record is accepted otherwise, and a
    record whose other fields pass their rules and whose confirmPassword is
    the same string is accepted exactly then. A shorter password fails with
    the too-short message and a longer one with the too-long message. *)
Theorem password_length props s :
  own props "password" = Some (JsStr s) →
  let msgs := field_messages "password" (JsObj props) in
  (msgs = [] ↔ (8 ≤ String.length s ≤ 20)%nat)
  ∧ ((String.length s < 8)%nat → msgs = ["Password is too short"])
  ∧ ((20 < String.length s)%nat → msgs = ["Password is too long"])
  ∧ ((password_schema ["password"] (JsStr s)).1 = OK s
     ↔ (8 ≤ String.length s ≤ 20)%nat)
  ∧ (accepted props → (8 ≤ String.length s ≤ 20)%nat)
  ∧ (email_ok props → githubUrl_ok props → yearsOfExperience_ok props →
     own props "confirmPassword" = Some (JsStr s) →
     (accepted props ↔ (8 ≤ String.length s ≤ 20)%nat)).
Proof.
  intros Hown msgs. subst msgs.
  assert (password_ok props ↔ (8 ≤ String.length s ≤ 20)%nat) as Hok.
  { unfold password_ok. split.
    - intros (s' & Hown' & Hlen). congruence.
    - intros Hlen. by exists s. }
  split; [|split; [|split; [|split; [|split]]]].
  - rewrite field_messages_password. unfold password_issues, entry.
    rewrite Hown. cbn [default from_option id]. rewrite <- (password_part ["password"]).
    split; [apply fmap_nil_inv|by intros ->].
  - intros Hlen. rewrite field_messages_password. unfold password_issues, entry.
    rewrite Hown. cbn [default from_option id]. rewrite password_messages_of.
    destruct (Nat.ltb_spec (String.length s) 8), (Nat.ltb_spec 20 (String.length s));
      (done || lia).
  - intros Hlen. rewrite field_messages_password. unfold password_issues, entry.
    rewrite Hown. cbn [default from_option id]. rewrite password_messages_of.
    destruct (Nat.ltb_spec (String.length s) 8), (Nat.ltb_spec 20 (String.length s));
      (done || lia).
  - rewrite <- (password_part ["password"]).
    pose proof (z_string_coherent
                  [min 8 (Some "Password is too short");
                   max 20 (Some "Password is too long")]
                  ["password"] (JsStr s)) as [H1 H2].
    pose proof (z_string_value
                  [min 8 (Some "Password is too short");
                   max 20 (Some "Password is too long")]
                  ["password"] (JsStr s)) as Hvalue.
    fold password_schema in H1, H2, Hvalue. split.
    + intros Hvalid. apply H1. by exists s.
    + intros [a Ha]%H2. rewrite Ha in Hvalue. cbn in Hvalue. congruence.
  - intros Hacc%accepted_iff. tauto.
  - intros He Hg Hy Hc. rewrite accepted_iff, <- Hok.
    assert (confirmPassword_ok props) by by exists s. tauto.
Qed.

(** C6: validation accepts a [githubUrl] only if it is a string that parses
    as a URL and contains ["github.com"]: exactly then the field gets no
    message and the result of its schema is valid, no record is accepted
    otherwise, and a record whose other fields pass their rules is accepted
    exactly then. A string that parses as a URL and lacks ["github.com"]
    fails with exactly the message ["Invalid GitHub URL"]: the result is
    dirty and the record is not accepted. *)
Theorem githubUrl_rule props :
  let msgs := field_messages "githubUrl" (JsObj props) in
  (msgs = []
   ↔ ∃ g, own props "githubUrl" = Some (JsStr g)
          ∧ URL_parses g = true ∧ contains g "github.com")
  ∧ (∀ g, own props "githubUrl" = Some (JsStr g) →
          URL_parses g = true → ¬ contains g "github.com" →
          msgs = ["Invalid GitHub URL"]
          ∧ (githubUrl_schema ["githubUrl"] (JsStr g)).1 = DIRTY g
          ∧ ¬ accepted props)
  ∧ ((∃ g, (githubUrl_schema ["githubUrl"] (entry props "githubUrl")).1 = OK g)
     ↔ ∃ g, own props "githubUrl" = Some (JsStr g)
            ∧ URL_parses g = true ∧ contains g "github.com")
  ∧ (accepted props
     → ∃ g, own props "githubUrl" = Some (JsStr g)
            ∧ URL_parses g = true ∧ contains g "github.com")
  ∧ (email_ok props → yearsOfExperience_ok props → password_ok props →
     confirmPassword_ok props →
     (accepted props
      ↔ ∃ g, own props "githubUrl" = Some (JsStr g)
             ∧ URL_parses g = true ∧ contains g "github.com")).
Proof.
  intros msgs. subst msgs. fold (githubUrl_ok props).
  split; [apply githubUrl_messages_nil|]. split; [|split; [|split]].
  - intros g Hown Hu Hno.
    assert (includes g "github.com" = false) as Hi.
    { apply not_true_is_false. by intros ?%includes_spec. }
    assert (field_messages "githubUrl" (JsObj props) = ["Invalid GitHub URL"]) as Hm.
    { rewrite field_messages_githubUrl. unfold githubUrl_issues, entry.
      rewrite Hown. cbn [default from_option id].
      by rewrite githubUrl_messages_of, Hu, Hi. }
    split; [done|]. split.
    + unfold githubUrl_schema, z_string. cbn [flat_map run_string_check].
      by rewrite Hu, Hi.
    + intros Hacc%(accepted_no_message _ "githubUrl"). congruence.
  - rewrite <- githubUrl_messages_nil, field_messages_githubUrl.
    apply valid_iff_no_message, z_string_coherent.
  - intros Hacc%accepted_iff. tauto.
  - intros He Hy Hp Hc. rewrite accepted_iff. tauto.
Qed.

End Verdicts.

(** ** The verdict on concrete records *)

Ltac field_ok :=
  first
    [ by (eexists; split; [reflexivity|]; vm_compute; reflexivity)
    | by (eexists; split; [reflexivity|]; split; [reflexivity|];
          apply includes_spec; reflexivity)
    | by (eexists; split; [reflexivity|]; eexists; split; [reflexivity|];
          split; unfold Qle; cbn; lia)
    | by (eexists; split; [reflexivity|]; cbn; lia)
    | by (eexists; split; reflexivity) ].

Section VerdictExamples.

#[local] Existing Instance demo_platform.

(** The amended C2 at a record with one and a half, which is accepted, and
    at a record with 11, which is not. *)
Lemma yearsOfExperience_accepts_in_bounds_witness :
  accepted [("email", JsStr "ada@example.com");
            ("githubUrl", JsStr "https://github.com/ada");
            ("yearsOfExperience", JsNum (Finite (3 # 2)));
            ("password", JsStr "Secret123"); ("confirmPassword", JsStr "Secret123")]
  ∧ ¬ accepted [("email", JsStr "ada@example.com");
                ("githubUrl", JsStr "https://github.com/ada");
                ("yearsOfExperience", JsNum (of_Z 11));
                ("password", JsStr "Secret123");
                ("confirmPassword", JsStr "Secret123")].
Proof.
  split.
  - destruct (@yearsOfExperience_accepts_in_bounds demo_platform
                [("email", JsStr "ada@example.com");
                 ("githubUrl", JsStr "https://github.com/ada");
                 ("yearsOfExperience", JsNum (Finite (3 # 2)));
                 ("password", JsStr "Secret123");
                 ("confirmPassword", JsStr "Secret123")])
      as (_ & _ & _ & Hothers).
    apply Hothers; field_ok.
  - destruct (@yearsOfExperience_accepts_in_bounds demo_platform
                [("email", JsStr "ada@example.com");
                 ("githubUrl", JsStr "https://github.com/ada");
                 ("yearsOfExperience", JsNum (of_Z 11));
                 ("password", JsStr "Secret123");
                 ("confirmPassword", JsStr "Secret123")])
      as (_ & _ & Honly & _).
    intros (n & [= <-] & q & [= <-] & _ & Hq)%Honly.
    unfold Qle in Hq. cbn in Hq. lia.
Defined.

(** C3 at records without the field, with a string, with [NaN] and with 0,
    and at a record with 10 whose other fields pass. *)
Lemma yearsOfExperience_messages_witness :
  field_messages "yearsOfExperience" (JsObj [("email", JsStr "ada@example.com")])
  = ["required field"]
  ∧ field_messages "yearsOfExperience" (JsObj [("yearsOfExperience", JsStr "five")])
    = ["Years of Experience is required"]
  ∧ field_messages "yearsOfExperience" (JsObj [("yearsOfExperience", JsNum NaN)])
    = ["Years of Experience is required"]
  ∧ ¬ accepted [("email", JsStr "ada@example.com");
                ("githubUrl", JsStr "https://github.com/ada");
                ("yearsOfExperience", JsNum (of_Z 0));
                ("password", JsStr "Secret123");
                ("confirmPassword", JsStr "Secret123")]
  ∧ accepted [("email", JsStr "ada@example.com");
              ("githubUrl", JsStr "https://github.com/ada");
              ("yearsOfExperience", JsNum (of_Z 10));
              ("password", JsStr "Secret123");
              ("confirmPassword", JsStr "Secret123")].
Proof.
  split; [|split; [|split; [|split]]].
  - destruct (@yearsOfExperience_messages demo_platform
                [("email", JsStr "ada@example.com")])
      as (_ & _ & _ & _ & Habsent & _).
    apply Habsent. left. reflexivity.
  - destruct (@yearsOfExperience_messages demo_platform
                [("yearsOfExperience", JsStr "five")])
      as (_ & _ & _ & _ & _ & Hother & _).
    apply (Hother (JsStr "five")); [reflexivity|]. split; discriminate.
  - destruct (@yearsOfExperience_messages demo_platform
                [("yearsOfExperience", JsNum NaN)])
      as (_ & _ & _ & _ & _ & Hother & _).
    apply (Hother (JsNum NaN)); [reflexivity|]. split; discriminate.
  - destruct (@yearsOfExperience_messages demo_platform
                [("email", JsStr "ada@example.com");
                 ("githubUrl", JsStr "https://github.com/ada");
                 ("yearsOfExperience", JsNum (of_Z 0));
                 ("password", JsStr "Secret123");
                 ("confirmPassword", JsStr "Secret123")])
      as (Hzero & _).
    apply Hzero. reflexivity.
  - destruct (@yearsOfExperience_messages demo_platform
                [("email", JsStr "ada@example.com");
                 ("githubUrl", JsStr "https://github.com/ada");
                 ("yearsOfExperience", JsNum (of_Z 10));
                 ("password", JsStr "Secret123");
                 ("confirmPassword", JsStr "Secret123")])
      as (_ & _ & _ & Hten & _).
    apply Hten; [reflexivity|]. repeat split; field_ok.
Defined.

(** C4 at passwords of length 8 and 20, which pass, and of length 7 and 21,
    which fail. *)
Lemma password_length_witness :
  accepted [("email", JsStr "ada@example.com");
            ("githubUrl", JsStr "https://github.com/ada");
            ("yearsOfExperience", JsNum (of_Z 3));
            ("password", JsStr "12345678"); ("confirmPassword", JsStr "12345678")]
  ∧ accepted [("email", JsStr "ada@example.com");
              ("githubUrl", JsStr "https://github.com/ada");
              ("yearsOfExperience", JsNum (of_Z 3));
              ("password", JsStr "12345678901234567890");
              ("confirmPassword", JsStr "12345678901234567890")]
  ∧ field_messages "password" (JsObj [("password", JsStr "1234567")])
    = ["Password is too short"]
  ∧ field_messages "password" (JsObj [("password", JsStr "123456789012345678901")])
    = ["Password is too long"]
  ∧ ¬ accepted [("email", JsStr "ada@example.com");
                ("githubUrl", JsStr "https://github.com/ada");
                ("yearsOfExperience", JsNum (of_Z 3));
                ("password", JsStr "1234567"); ("confirmPassword", JsStr "1234567")].
Proof.
  split; [|split; [|split; [|split]]].
  - destruct (@password_length demo_platform
                [("email", JsStr "ada@example.com");
                 ("githubUrl", JsStr "https://github.com/ada");
                 ("yearsOfExperience", JsNum (of_Z 3));
                 ("password", JsStr "12345678");
                 ("confirmPassword", JsStr "12345678")]
                "12345678" eq_refl)
      as (_ & _ & _ & _ & _ & Hothers).
    apply Hothers; [field_ok|field_ok|field_ok|reflexivity|cbn; lia].
  - destruct (@password_length demo_platform
                [("email", JsStr "ada@example.com");
                 ("githubUrl", JsStr "https://github.com/ada");
                 ("yearsOfExperience", JsNum (of_Z 3));
                 ("password", JsStr "12345678901234567890");
                 ("confirmPassword", JsStr "12345678901234567890")]
                "12345678901234567890" eq_refl)
      as (_ & _ & _ & _ & _ & Hothers).
    apply Hothers; [field_ok|field_ok|field_ok|reflexivity|cbn; lia].
  - apply (@password_length demo_platform [("password", JsStr "1234567")] "1234567"
             eq_refl).
    cbn. lia.
  - apply (@password_length demo_platform
             [("password", JsStr "123456789012345678901")] "123456789012345678901"
             eq_refl).
    cbn. lia.
  - destruct (@password_length demo_platform
                [("email", JsStr "ada@example.com");
                 ("githubUrl", JsStr "https://github.com/ada");
                 ("yearsOfExperience", JsNum (of_Z 3));
                 ("password", JsStr "1234567");
                 ("confirmPassword", JsStr "1234567")]
                "1234567" eq_refl)
      as (_ & _ & _ & _ & Honly & _).
    intros Hlen%Honly. cbn in Hlen. lia.
Defined.

(** C6 at a URL of another site, which fails, and at a GitHub URL, which
    passes. *)
Lemma githubUrl_rule_witness :
  field_messages "githubUrl" (JsObj [("githubUrl", JsStr "https://example.com/ada")])
  = ["Invalid GitHub URL"]
  ∧ ¬ accepted [("email", JsStr "ada@example.com");
                ("githubUrl", JsStr "https://example.com/ada");
                ("yearsOfExperience", JsNum (of_Z 3));
                ("password", JsStr "Secret123");
                ("confirmPassword", JsStr "Secret123")]
  ∧ accepted [("email", JsStr "ada@example.com");
              ("githubUrl", JsStr "https://github.com/ada");
              ("yearsOfExperience", JsNum (of_Z 3));
              ("password", JsStr "Secret123");
              ("confirmPassword", JsStr "Secret123")].
Proof.
  assert (¬ contains "https://example.com/ada" "github.com") as Hlacks.
  { intros Hc%includes_spec. vm_compute in Hc. discriminate. }
  split; [|split].
  - destruct (@githubUrl_rule demo_platform
                [("githubUrl", JsStr "https://example.com/ada")])
      as (_ & Hfails & _).
    by apply (Hfails "https://example.com/ada").
  - destruct (@githubUrl_rule demo_platform
                [("email", JsStr "ada@example.com");
                 ("githubUrl", JsStr "https://example.com/ada");
                 ("yearsOfExperience", JsNum (of_Z 3));
                 ("password", JsStr "Secret123");
                 ("confirmPassword", JsStr "Secret123")])
      as (_ & Hfails & _).
    by apply (Hfails "https://example.com/ada").
  - destruct (@githubUrl_rule demo_platform
                [("email", JsStr "ada@example.com");
                 ("githubUrl", JsStr "https://github.com/ada");
                 ("yearsOfExperience", JsNum (of_Z 3));
                 ("password", JsStr "Secret123");
                 ("confirmPassword", JsStr "Secret123")])
      as (_ & _ & _ & _ & Hothers).
    apply Hothers; field_ok.
Defined.

End VerdictExamples.
